(** * st-edgedb-cloud-conn: the query dispatch layer of [ecc]

    A shallow embedding of [ecc/data_structures.py], [ecc/utils.py] and
    [ecc/connection.py]: the response enumerations, the selection of the
    client method ([match_func_name]), the lexical classification of a
    query ([_is_qry_immutable]), the dispatch of [query] to the cached or
    the direct path, the call counters of the context manager and the
    health probe; and of the parts of the Streamlit application around
    it, [st_utils.py] and [streamlit_app.py]: the configuration, the
    loops and connections kept for the sessions, and the conversion of
    the query form.

    Conventions.  A Python [str] is the list of its code points.  An
    [async def] that is awaited to completion is a state transformer which
    returns either a value or the exception it raised; the state it leaves
    is kept in both cases, as Python keeps the attribute writes made before
    a [raise].  Logging has no effect on anything modelled here and is left
    out.  Time stamps and [ttl] are integers, a number of clock ticks of
    whatever length.  Tasks run from one [await] to the next without
    interruption, as the event loop runs them.  The sleep that
    [__aexit__] awaits is a computation of its own, in which other tasks
    may run and the task may be cancelled; a request that is awaited is
    awaited to its answer. *)

From Stdlib Require Import List ZArith NArith Bool Lia Ascii String.
From Stdlib Require Import DecimalString Permutation.
Import ListNotations.

Set Implicit Arguments.

(* ================================================================== *)
(** ** Python values *)
(* ================================================================== *)

(** [ecc/data_structures.py] *)
Inductive RespJson : Type :=
| NO
| YES.

Inductive RespConstraint : Type :=
| FREE
| NO_MORE_THAN_ONE
| EXACTLY_ONE.

Definition codepoint : Type := N.

(** A Python [str]. *)
Definition str : Type := list codepoint.

(** The [str] of an ASCII literal of the source. *)
Definition pystr (s : string) : str :=
  map N_of_ascii (list_ascii_of_string s).

(** The objects that travel as query arguments.  Tuples are hashable when
    their items are, lists never are. *)
#[warnings="-register-all"]
Inductive pyval : Type :=
| PyNone
| PyInt (n : Z)
| PyStr (s : str)
| PyRespJson (j : RespJson)
| PyRespConstraint (r : RespConstraint)
| PyTuple (items : list pyval)
| PyList (items : list pyval).

Fixpoint hashable (v : pyval) : bool :=
  match v with
  | PyTuple items => forallb hashable items
  | PyList _ => false
  | _ => true
  end.

(** Why a transport gave up. *)
Inductive transport_failure : Type :=
| ConnectionRefused
| DNSFailure
| TLSFailure
| TimedOut
| OtherTransportFailure (what : string).

(** What [httpx.get] may raise.  [httpx.HTTPError] is the base class of
    the transport errors and of a few more (too many redirects, decoding);
    other exceptions, [httpx.InvalidURL] among them, are outside it. *)
Inductive httpx_exception : Type :=
| TransportError (why : transport_failure)
| OtherHTTPError (what : string)
| NotHTTPError (what : string).

(** [isinstance(e, httpx.HTTPError)] *)
Definition isinstance_HTTPError (e : httpx_exception) : bool :=
  match e with
  | TransportError _ | OtherHTTPError _ => true
  | NotHTTPError _ => false
  end.

(** The exceptions that reach a caller. *)
Inductive exn : Type :=
| AssertionError                 (* typing.assert_never *)
| CacheKeyError                  (* TypeError: unhashable type *)
| AttributeError                 (* an attribute that was deleted *)
| EdgeDBError (msg : string)     (* raised by a method of the client *)
| HttpxException (e : httpx_exception)
| OtherError (msg : string).     (* raised by the body of a [with] block *)

Inductive outcome (A : Type) : Type :=
| Ok (a : A)
| Raise (e : exn).

Arguments Ok {A} a.
Arguments Raise {A} e.

(* ================================================================== *)
(** ** [ecc/utils.py]: match_func_name *)
(* ================================================================== *)

(** The [match] statement receives two objects; the annotations promise
    members of the two enumerations, the last [case] takes whatever else
    arrives and hands it to [assert_never], which raises. *)
Definition match_func_name (jsonify required_single : pyval) : outcome string :=
  match jsonify, required_single with
  | PyRespJson NO, PyRespConstraint FREE => Ok "query"%string
  | PyRespJson NO, PyRespConstraint NO_MORE_THAN_ONE => Ok "query_single"%string
  | PyRespJson NO, PyRespConstraint EXACTLY_ONE => Ok "query_required_single"%string
  | PyRespJson YES, PyRespConstraint FREE => Ok "query_json"%string
  | PyRespJson YES, PyRespConstraint NO_MORE_THAN_ONE => Ok "query_single_json"%string
  | PyRespJson YES, PyRespConstraint EXACTLY_ONE => Ok "query_required_single_json"%string
  | _, _ => Raise AssertionError
  end.

(* ================================================================== *)
(** ** [str] operations used by the classifier *)
(* ================================================================== *)

(** [s.startswith(p)] *)
Fixpoint startswith (p s : str) : bool :=
  match p, s with
  | [], _ => true
  | _ :: _, [] => false
  | a :: p', b :: s' => N.eqb a b && startswith p' s'
  end.

(** [needle in hay] on two [str]. *)
Fixpoint str_in (needle hay : str) : bool :=
  startswith needle hay ||
  match hay with
  | [] => false
  | _ :: hay' => str_in needle hay'
  end.

Definition is_ascii_upper (c : codepoint) : bool :=
  (N.leb 65 c && N.leb c 90)%N.

Definition is_ascii (c : codepoint) : bool := N.ltb c 128.

Section Casefold.

(** [str.casefold] replaces every code point by its full case folding.
    Inside ASCII this lowers the letters A-Z; beyond ASCII the folding
    is a table of the Python runtime, taken here as it comes. *)
Variable unicode_fold : codepoint -> str.

Definition casefold_char (c : codepoint) : str :=
  if is_ascii_upper c then [(c + 32)%N]
  else if is_ascii c then [c]
  else unicode_fold c.

Definition casefold (s : str) : str := flat_map casefold_char s.

(** [EdgeDBCloudConn._mutated_kws] *)
Definition _mutated_kws : list str :=
  [pystr "insert"; pystr "update"; pystr "delete"].

(** [EdgeDBCloudConn._is_qry_immutable] *)
Definition _is_qry_immutable (qry : str) : bool :=
  forallb (fun mutated_kw => negb (str_in mutated_kw (casefold qry)))
          _mutated_kws.

End Casefold.

(* ================================================================== *)
(** ** [ecc/data_structures.py]: QueryRecord *)
(* ================================================================== *)

(** Keyword arguments: a [dict] in insertion order. *)
Definition kwargs_t : Type := list (string * pyval).

Record QueryRecord : Type := {
  qry : str;
  extra_args : list pyval;
  jsonify : RespJson;
  required_single : RespConstraint;
  extra_kwargs : kwargs_t;
  task_name : string
}.

(* ================================================================== *)
(** ** The remote client *)
(* ================================================================== *)

(** What [edgedb.create_async_client] is given. *)
Record AsyncIOClient : Type := {
  client_host : string;
  client_port : Z;
  client_database : string;
  client_secret_key : string
}.

Definition create_async_client (host : string) (port : Z) (database secret_key : string)
  : AsyncIOClient :=
  {| client_host := host; client_port := port;
     client_database := database; client_secret_key := secret_key |}.

(** One invocation of a method of the client: [func(qry, *args, **kwargs)]. *)
Record remote_call : Type := {
  rc_func : string;
  rc_qry : str;
  rc_args : list pyval;
  rc_kwargs : kwargs_t
}.

(* ================================================================== *)
(** ** The cache of [alru_cache] *)
(* ================================================================== *)

(** Modelled from the spec: the cache key of [alru_cache] (package
    async_lru, imported by [connection.py], its code is not part of the
    sources).  The key is the content of the request: text, positional
    arguments, named arguments, output format and cardinality. *)
Record CacheKey : Type := {
  key_qry : str;
  key_args : list pyval;
  key_jsonify : RespJson;
  key_required_single : RespConstraint;
  key_kwargs : kwargs_t
}.

Fixpoint pyval_eq_dec (a b : pyval) : {a = b} + {a <> b}.
Proof.
  decide equality;
    try apply Z.eq_dec;
    try (apply list_eq_dec; apply N.eq_dec);
    try (apply list_eq_dec; apply pyval_eq_dec);
    decide equality.
Defined.

Definition CacheKey_eq_dec (a b : CacheKey) : {a = b} + {a <> b}.
Proof.
  decide equality.
  - apply list_eq_dec. decide equality; [apply pyval_eq_dec | apply string_dec].
  - decide equality.
  - decide equality.
  - apply list_eq_dec, pyval_eq_dec.
  - apply list_eq_dec, N.eq_dec.
Defined.

Definition key_of (r : QueryRecord) : CacheKey :=
  {| key_qry := qry r; key_args := extra_args r;
     key_jsonify := jsonify r;
     key_required_single := required_single r;
     key_kwargs := extra_kwargs r |}.

(** Modelled from the spec: a key exists only for hashable content;
    [None] stands for the failure to derive one. *)
Definition make_key (r : QueryRecord) : option CacheKey :=
  if forallb hashable (extra_args r)
     && forallb (fun kv => hashable (snd kv)) (extra_kwargs r)
  then Some (key_of r)
  else None.

(** The arguments of [httpx.get]. *)
Record http_request : Type := {
  url : string;
  follow_redirects : bool;
  verify : bool;
  timeout : Z
}.

(** What [httpx.get] does: a response, or an exception. *)
Inductive http_reply : Type :=
| Response (status_code : Z)
| HttpxRaises (e : httpx_exception).

(* ================================================================== *)
(** ** Requests of [ecc/queries.py] and a server to run them against *)
(* ================================================================== *)

(** [pack_imqry_records()[0]] *)
Definition select_movies : QueryRecord :=
  {| qry := pystr "SELECT Movie {title};";
     extra_args := [];
     jsonify := NO;
     required_single := FREE;
     extra_kwargs := [];
     task_name := "QueryMovie0" |}.

(** The same selection asked for as JSON, as the form of the
    application asks by default. *)
Definition select_movies_json : QueryRecord :=
  {| qry := pystr "SELECT Movie {title};";
     extra_args := [];
     jsonify := YES;
     required_single := FREE;
     extra_kwargs := [];
     task_name := "QueryMovieJson" |}.

(** [pack_imqry_records_by_args()[0]] *)
Definition select_movie_by_args : QueryRecord :=
  {| qry := pystr "SELECT Movie {title, release_year} 
                FILTER .title=<str>$0 and .release_year=<int64>$1;";
     extra_args := [PyStr (pystr "Ant-Man"); PyInt 2015];
     jsonify := NO;
     required_single := FREE;
     extra_kwargs := [];
     task_name := "QueryMovieTitleByArgs" |}.

(** [pack_mqry_records()[0]] *)
Definition insert_person : QueryRecord :=
  {| qry := pystr "WITH p := (INSERT Person {name:=<str>$name}) 
           SELECT p {name};";
     extra_args := [];
     jsonify := NO;
     required_single := FREE;
     extra_kwargs := [("name"%string, PyStr (pystr "Adam Gramham"))];
     task_name := "insert" |}.

(** The first request again, with a list among its arguments. *)
Definition select_with_list : QueryRecord :=
  {| qry := pystr "SELECT Movie {title} FILTER .release_year IN array_unpack(<array<int64>>$0);";
     extra_args := [PyList [PyInt 2015; PyInt 2018]];
     jsonify := NO;
     required_single := FREE;
     extra_kwargs := [];
     task_name := "QueryMovieByYears" |}.

(** A case folding that leaves every code point beyond ASCII alone. *)
Definition ascii_only_fold (c : codepoint) : str := [c].

(** A server that counts the calls it has answered and answers with
    that count; it refuses the method [query_json]. *)
Definition counting_server (cl : AsyncIOClient) (rc : remote_call) (served : nat)
  : outcome pyval * nat :=
  if String.eqb (rc_func rc) "query_json"
  then (Raise (EdgeDBError "refused"), S served)
  else (Ok (PyInt (Z.of_nat served)), S served).

(** A network in which the probe of port 5656 finds the server alive, the
    probe of port 5657 is refused and every other port answers 503. *)
Definition demo_network (req : http_request) : http_reply :=
  if String.eqb (url req) "https://localhost:5656/server/status/alive"
  then Response 200
  else if String.eqb (url req) "https://localhost:5657/server/status/alive"
  then HttpxRaises (TransportError ConnectionRefused)
  else Response 503.

(** [httpx.get] builds an [httpx.URL] before anything is sent, and a URL
    with a control character in it is refused there with
    [httpx.InvalidURL], a subclass of [Exception] and not of
    [httpx.HTTPError]. *)
Definition has_control_char (s : string) : bool :=
  existsb (fun a => Nat.ltb (nat_of_ascii a) 32) (list_ascii_of_string s).

Definition url_checking_network (req : http_request) : http_reply :=
  if has_control_char (url req)
  then HttpxRaises (NotHTTPError "InvalidURL")
  else demo_network req.

(** A host name read from a configuration file with a tab in it. *)
Definition host_with_tab : string := String "009"%char "localhost".

(** [l1] is [l2] with some of its elements left out, the order kept. *)
Inductive subseq (A : Type) : list A -> list A -> Prop :=
| subseq_nil : subseq [] []
| subseq_skip (x : A) (l1 l2 : list A) : subseq l1 l2 -> subseq l1 (x :: l2)
| subseq_take (x : A) (l1 l2 : list A) : subseq l1 l2 -> subseq (x :: l1) (x :: l2).


(* ================================================================== *)
(** ** The Streamlit application: [st_utils.py] and [streamlit_app.py] *)
(* ================================================================== *)

(** A [dict] with [str] keys: its items in the order of insertion. *)
Definition dict (V : Type) : Type := list (string * V).

(** [d.keys()] *)
Definition dict_keys (V : Type) (d : dict V) : list string := map fst d.

(** [d.get(k)] *)
Fixpoint dict_get (V : Type) (k : string) (d : dict V) : option V :=
  match d with
  | [] => None
  | (k', v) :: d' => if String.eqb k k' then Some v else dict_get k d'
  end.

(** [k in d] *)
Definition dict_in (V : Type) (k : string) (d : dict V) : bool :=
  match dict_get k d with
  | Some _ => true
  | None => false
  end.

(** [d[k] = v]: the value of a key that is there is replaced where it
    is, a new key goes to the end. *)
Fixpoint dict_set (V : Type) (k : string) (v : V) (d : dict V) : dict V :=
  match d with
  | [] => [(k, v)]
  | (k', v') :: d' =>
      if String.eqb k k' then (k, v) :: d' else (k', v') :: dict_set k v d'
  end.

(** [del d[k]], which is also what [d.pop(k)] leaves of [d]; [None] is
    the [KeyError]. *)
Definition dict_del (V : Type) (k : string) (d : dict V) : option (dict V) :=
  if dict_in k d
  then Some (filter (fun item => negb (String.eqb k (fst item))) d)
  else None.

(** [dict(pairs)] and the dict comprehensions: the pairs are set one
    after the other. *)
Definition dict_of (V : Type) (pairs : list (string * V)) : dict V :=
  fold_left (fun d kv => dict_set (fst kv) (snd kv) d) pairs [].

(** Exceptions of the standard library, told apart by their class. *)
Definition FileNotFoundError : exn := OtherError "FileNotFoundError".
Definition KeyError (key : string) : exn := OtherError ("KeyError: " ++ key).
Definition TypeError (msg : string) : exn := OtherError ("TypeError: " ++ msg).
Definition SyntaxError : exn := OtherError "SyntaxError".

(** [isinstance(e, FileNotFoundError)], the test of [except]. *)
Definition is_FileNotFoundError (e : exn) : bool :=
  match e with
  | OtherError msg => String.eqb msg "FileNotFoundError"
  | _ => false
  end.

(** [isinstance(e, SyntaxError)] *)
Definition is_SyntaxError (e : exn) : bool :=
  match e with
  | OtherError msg => String.eqb msg "SyntaxError"
  | _ => false
  end.

(** *** The configuration *)

(** A value of a TOML table. *)
Inductive toml_value : Type :=
| TomlStr (s : string)
| TomlInt (n : Z)
| TomlOther (shown : string).  (* of another type, with its [str()] *)

(** [str(v)], which is what an f-string puts for [{v}]. *)
Definition str_of_toml (v : toml_value) : string :=
  match v with
  | TomlStr s => s
  | TomlInt n => NilZero.string_of_int (Z.to_int n)
  | TomlOther shown => shown
  end.

Section Configuration.

(** [open(toml_name, 'rb')] followed by [tomllib.load]: the tables of
    the file, or what one of the two raises, [FileNotFoundError] when
    there is no such file. *)
Variable read_toml : string -> outcome (dict (dict toml_value)).

(** [st.secrets[key]] *)
Variable st_secrets : string -> outcome (dict toml_value).

(** The network, as [httpx.get] finds it when called. *)
Variable httpx_get : http_request -> http_reply.

(** [ecc.utils.load_toml] *)
Definition load_toml (toml_name table_name : string)
  : outcome (dict toml_value) :=
  match read_toml toml_name with
  | Raise e => Raise e
  | Ok data =>
      match dict_get table_name data with
      | Some table => Ok table
      | None => Raise (KeyError table_name)
      end
  end.

(** [st_utils.load_st_toml]; [load_toml()] takes its two defaults. *)
Definition load_st_toml : outcome (dict toml_value) :=
  match load_toml "edgedbcloud.toml" "edgedb-cloud" with
  | Ok table => Ok table
  | Raise e =>
      if is_FileNotFoundError e then st_secrets "edgedb-cloud" else Raise e
  end.

(** [st_utils.load_db_info]: the table is copied into a new dict with
    the same items, [pop] takes the key out of it or raises. *)
Definition load_db_info : outcome (dict toml_value) :=
  match load_st_toml with
  | Raise e => Raise e
  | Ok table =>
      match dict_del "secret_key" table with
      | Some dbinfo => Ok dbinfo
      | None => Raise (KeyError "secret_key")
      end
  end.

(** [st_utils.is_db_healthy] *)
Definition is_db_healthy : outcome bool :=
  match load_st_toml with
  | Raise e => Raise e
  | Ok st_info =>
      match dict_get "host" st_info with
      | None => Raise (KeyError "host")
      | Some host =>
          match dict_get "port" st_info with
          | None => Raise (KeyError "port")
          | Some port =>
              let _healthy_check_url :=
                ("https://" ++ str_of_toml host ++ ":" ++ str_of_toml port
                   ++ "/server/status/alive")%string in
              match httpx_get {| url := _healthy_check_url;
                                 follow_redirects := true;
                                 verify := false;
                                 timeout := 30 |} with
              | Response status_code => Ok (status_code =? 200)%Z
              | HttpxRaises e =>
                  if isinstance_HTTPError e then Ok false
                  else Raise (HttpxException e)
              end
          end
      end
  end.

End Configuration.

(** *** The loops and the connections of the sessions *)

(** The toasts of the [except] clauses around the deletions. *)
Inductive toast : Type :=
| DelLoopFailed (k : string)    (* ... happened in del loops *)
| DelConnFailed (k : string)    (* ... happened in del conns *)
| ClearConnFailed (k : string). (* ... happened in clear conn *)

(** [st.rerun()] stops the script with this exception. *)
Definition RerunException : exn := OtherError "RerunException".

(** The buttons of the expander Resource Info; one at most is pressed in
    a run of the script.  [TryFreeRes] carries the reading of the clock
    in the [_routine_clean] it starts. *)
Inductive resource_button : Type :=
| NoButton
| Refresh
| TryFreeRes (now : Z).

Section Resources.

(** The event loops and the connections, as objects. *)
Variables Loop Conn : Type.

(** The order in which a [for] goes through a set of tokens. *)
Variable set_iter : list string -> list string.

(** The two dicts that [st.cache_resource] keeps for all the sessions,
    [get_loop_dict()] and [get_conn_dict()], each from a token to an
    object and the time stamp of its last use, and the toasts shown. *)
Record resources : Type := {
  loop_dict : dict (Loop * Z);
  conn_dict : dict (Conn * Z);
  toasts : list toast
}.

(** [{t for t, (_, ts) in d.items() if cur_ts - ts > threshold}] *)
Definition stale_tokens (V : Type) (cur_ts threshold : Z) (d : dict (V * Z))
  : list string :=
  nodup string_dec
    (map fst (filter (fun item => (cur_ts - snd (snd item) >? threshold)%Z) d)).

(** [for _token in excluded_token: s.discard(_token)] *)
Definition discard_all (excluded_token : list string) (s : list string)
  : list string :=
  fold_left (fun s _token => remove string_dec _token s) excluded_token s.

(** [for k in ks: try: del d[k] except Exception as ex: st.toast(...)] *)
Fixpoint del_each (V : Type) (failed : string -> toast) (ks : list string)
                  (d : dict V) (shown : list toast) : dict V * list toast :=
  match ks with
  | [] => (d, shown)
  | k :: ks' =>
      match dict_del k d with
      | Some d' => del_each failed ks' d' shown
      | None => del_each failed ks' d (shown ++ [failed k])
      end
  end.

(** [st_utils._routine_clean]; [cur_ts] is its reading of the clock.  The
    threshold is the default 300 or the 3 of the button Try Free Res, a
    number of seconds as the time stamps are. *)
Definition _routine_clean (cur_ts : Z) (excluded_token : list string)
                          (threshold : Z) (a : resources) : resources :=
  let to_del_loop_tokens :=
    discard_all excluded_token (stale_tokens cur_ts threshold (loop_dict a)) in
  let (ld, shown1) :=
    del_each DelLoopFailed (set_iter to_del_loop_tokens) (loop_dict a) (toasts a) in
  let to_del_conn_tokens :=
    discard_all excluded_token (stale_tokens cur_ts threshold (conn_dict a)) in
  let (cd, shown2) :=
    del_each DelConnFailed (set_iter to_del_conn_tokens) (conn_dict a) shown1 in
  {| loop_dict := ld; conn_dict := cd; toasts := shown2 |}.

(** [st_utils.count_loops] and [st_utils.count_conns] *)
Definition count_loops (a : resources) : nat := List.length (loop_dict a).
Definition count_conns (a : resources) : nat := List.length (conn_dict a).

(** [streamlit_app._prepare_loop]; [new_event_loop] is the loop that
    [asyncio.new_event_loop()] makes when it is called. *)
Definition _prepare_loop (new_event_loop : Loop) (cur_ts : Z) (token : string)
                         (a : resources) : Loop * resources :=
  let loop := match dict_get token (loop_dict a) with
              | None => new_event_loop
              | Some (loop, _) => loop
              end in
  (loop, {| loop_dict := dict_set token (loop, cur_ts) (loop_dict a);
            conn_dict := conn_dict a;
            toasts := toasts a |}).

(** [streamlit_app._prepare_conn]; [new_conn] is what the call of
    [EdgeDBCloudConn] on the table of [load_st_toml()] gives when it is
    evaluated, a connection or the exception of the configuration or of
    the call. *)
Definition _prepare_conn (new_conn : outcome Conn) (cur_ts : Z) (token : string)
                         (a : resources) : outcome Conn * resources :=
  let made := match dict_get token (conn_dict a) with
              | None => new_conn
              | Some (c, _) => Ok c
              end in
  match made with
  | Raise e => (Raise e, a)
  | Ok c => (Ok c, {| loop_dict := loop_dict a;
                      conn_dict := dict_set token (c, cur_ts) (conn_dict a);
                      toasts := toasts a |})
  end.

(** [st_comps._display_res], for what it does to the resources: the
    button Refresh reruns the script, the button Try Free Res cleans with
    a threshold of 3. *)
Definition _display_res (pressed : resource_button) (excluded_token : list string)
                        (a : resources) : outcome unit * resources :=
  match pressed with
  | NoButton => (Ok tt, a)
  | Refresh => (Raise RerunException, a)
  | TryFreeRes now => (Ok tt, _routine_clean now excluded_token 3 a)
  end.

(** The script of [streamlit_app.py] under [if __name__ == '__main__'],
    from the reading of the clock to [_routine_clean(excluded_token)],
    which reads the clock again as [clean_ts] and takes the default
    threshold of 300. *)
Definition __main__ (cur_ts : Z) (token : string) (new_event_loop : Loop)
                    (new_conn : outcome Conn) (pressed : resource_button)
                    (clean_ts : Z) (a : resources)
  : outcome (Loop * Conn) * resources :=
  let excluded_token := [token] in
  let (loop, a1) := _prepare_loop new_event_loop cur_ts token a in
  match _prepare_conn new_conn cur_ts token a1 with
  | (Raise e, a2) => (Raise e, a2)
  | (Ok c, a2) =>
      match _display_res pressed excluded_token a2 with
      | (Raise e, a3) => (Raise e, a3)
      | (Ok _, a3) =>
          (Ok (loop, c), _routine_clean clean_ts excluded_token 300 a3)
      end
  end.

(** [st_comps._display_big_red_btn_and_db_calls] when the button Clear
    Conn is pressed, for what it does to the resources. *)
Definition clear_conn (token : string) (a : resources) : resources :=
  match dict_del token (conn_dict a) with
  | Some cd => {| loop_dict := loop_dict a; conn_dict := cd; toasts := toasts a |}
  | None => {| loop_dict := loop_dict a; conn_dict := conn_dict a;
               toasts := toasts a ++ [ClearConnFailed token] |}
  end.

End Resources.

(** *** The query form *)

(** [member.name] of a member of [RespConstraint]. *)
Definition name_of_RespConstraint (member : RespConstraint) : string :=
  match member with
  | FREE => "FREE"
  | NO_MORE_THAN_ONE => "NO_MORE_THAN_ONE"
  | EXACTLY_ONE => "EXACTLY_ONE"
  end.

(** [str(member)]: the name of the class, a dot and the name of the
    member, as [Enum.__str__] writes it. *)
Definition str_of_RespConstraint (member : RespConstraint) : string :=
  ("RespConstraint." ++ name_of_RespConstraint member)%string.

(** The members of [RespConstraint], in the order of their definition. *)
Definition RespConstraint_members : list RespConstraint :=
  [FREE; NO_MORE_THAN_ONE; EXACTLY_ONE].

(** [st_utils.required_single_format_func] *)
Definition required_single_format_func (opt : string) : outcome string :=
  let keys := map str_of_RespConstraint RespConstraint_members in
  let values :=
    ["FREE: The query will just return whatever it got.";
     "NO_MORE_THAN_ONE: The query must return no more than one element.";
     "EXACTLY_ONE: The query must return exactly one element."]%string in
  let d := dict_of (combine keys values) in
  match dict_get opt d with
  | Some (String _ _ as feedback) => Ok feedback
  | _ => Raise (TypeError (opt ++ " may not be the RespConstraint Enum member"))
  end.

(** The options of the radio of [st_comps._receive_required_single]. *)
Definition required_single_options : list string :=
  map str_of_RespConstraint RespConstraint_members.

(** [st_utils.convert_bool_to_jsonify] *)
Definition convert_bool_to_jsonify (jsonify : bool) : RespJson :=
  if jsonify then YES else NO.

(** [st_utils.convert_str_to_required_single] *)
Definition convert_str_to_required_single (required_single : string)
  : outcome RespConstraint :=
  let d := dict_of (map (fun member => (str_of_RespConstraint member, member))
                        RespConstraint_members) in
  match dict_get required_single d with
  | Some member => Ok member
  | None => Raise (KeyError required_single)
  end.

(** [s.split(sep)] for a separator of one character; [cur] is the
    segment read so far, last character first. *)
Fixpoint str_split_from (sep : codepoint) (cur : str) (s : str) : list str :=
  match s with
  | [] => [rev cur]
  | c :: s' =>
      if N.eqb c sep then rev cur :: str_split_from sep [] s'
      else str_split_from sep (c :: cur) s'
  end.

Definition str_split (sep : codepoint) (s : str) : list str :=
  str_split_from sep [] s.

(** [sep.join(segs)] *)
Fixpoint str_join (sep : codepoint) (segs : list str) : str :=
  match segs with
  | [] => []
  | [seg] => seg
  | seg :: segs' => seg ++ sep :: str_join sep segs'
  end.

(** The semicolon. *)
Definition semicolon : codepoint := 59%N.

(** The local variables of [_populate_qry_args] as they stand when it
    calls [eval]. *)
Record eval_locals : Type := {
  l_qry_args_str : str;
  l_qry_args : list pyval;
  l_arg_str : str;
  l_eval_arg : option pyval  (* bound once an evaluation has returned *)
}.

(** The warnings of [st.warning]. *)
Inductive warning : Type :=
| CanNotParsePositional.  (* Can not parse the positional query arguments! *)

Section QueryArguments.

(** [c.isspace()], the white space of Unicode. *)
Variable isspace : codepoint -> bool.

(** What an expression can read and change when it is evaluated, the
    list [qry_args] apart: the globals of the module, the names that an
    earlier expression has bound, the objects behind them, the rest of
    the process. *)
Variable Interp : Type.

(** [eval(arg_str)], given no globals and no locals of its own: the
    expression is evaluated in the frame of [_populate_qry_args], with
    its local variables in sight.  It gives a value or raises, and it
    leaves the list [qry_args], which it can reach and change, and the
    state of the interpreter. *)
Variable py_eval :
  eval_locals -> Interp -> outcome pyval * (list pyval * Interp).

Fixpoint lstrip (s : str) : str :=
  match s with
  | [] => []
  | c :: s' => if isspace c then lstrip s' else s
  end.

(** [s.strip()] *)
Definition strip (s : str) : str := rev (lstrip (rev (lstrip s))).

(** The loop of [_populate_qry_args] over the segments left, with the
    list [qry_args] it appends to, the value [eval_arg] of the last
    evaluation and the state of the interpreter. *)
Fixpoint populate_from (qry_args_str : str) (segs : list str)
                       (qry_args : list pyval) (eval_arg : option pyval)
                       (i : Interp)
  : outcome (list pyval) * list warning * Interp :=
  match segs with
  | [] => (Ok qry_args, [], i)
  | arg_str :: segs' =>
      match strip arg_str with
      | [] => populate_from qry_args_str segs' qry_args eval_arg i
      | _ :: _ =>
          match py_eval {| l_qry_args_str := qry_args_str;
                           l_qry_args := qry_args;
                           l_arg_str := arg_str;
                           l_eval_arg := eval_arg |} i with
          | (Ok value, (qry_args', i')) =>
              populate_from qry_args_str segs' (qry_args' ++ [value])
                            (Some value) i'
          | (Raise e, (_, i')) =>
              (Raise e,
               if is_SyntaxError e then [CanNotParsePositional] else [],
               i')
          end
      end
  end.

(** [st_utils._populate_qry_args]: the tuple of the arguments, or the
    exception of [eval], with the warnings shown and the state of the
    interpreter it leaves. *)
Definition _populate_qry_args (qry_args_str : str) (i : Interp)
  : outcome (list pyval) * list warning * Interp :=
  populate_from qry_args_str (str_split semicolon qry_args_str) [] None i.

End QueryArguments.

(** *** An application to run the model on *)

(** Three sessions: the loop and the connection of [tok-a] were last
    used at 0, the loop of [tok-b] at 50, those of [tok-c] at 390. *)
Definition demo_resources : resources nat nat :=
  {| loop_dict := [("tok-a"%string, (1%nat, 0%Z)); ("tok-b"%string, (2%nat, 50%Z));
                   ("tok-c"%string, (3%nat, 390%Z))];
     conn_dict := [("tok-a"%string, (10%nat, 0%Z)); ("tok-c"%string, (30%nat, 390%Z))];
     toasts := [] |}.

(** A directory with the file of the configuration in it and no other. *)
Definition demo_toml (toml_name : string) : outcome (dict (dict toml_value)) :=
  if String.eqb toml_name "edgedbcloud.toml"
  then Ok [("edgedb-cloud",
            [("host", TomlStr "localhost"); ("port", TomlInt 5656);
             ("database", TomlStr "edgedb"); ("secret_key", TomlStr "secret")])]%string
  else Raise FileNotFoundError.

(** No secrets file. *)
Definition no_secrets (key : string) : outcome (dict toml_value) :=
  Raise FileNotFoundError.

(** The white space of ASCII. *)
Definition ascii_isspace (c : codepoint) : bool :=
  (N.eqb c 32 || (N.leb 9 c && N.leb c 13))%bool.

(** The literals [1] and [2]; everything else is a syntax error. *)
Definition literal_value (source : str) : outcome pyval :=
  match strip ascii_isspace source with
  | [49%N] => Ok (PyInt 1)
  | [50%N] => Ok (PyInt 2)
  | _ => Raise SyntaxError
  end.

(** An [eval] that knows these literals and touches nothing. *)
Definition literal_eval (l : eval_locals) (i : unit)
  : outcome pyval * (list pyval * unit) :=
  (literal_value (l_arg_str l), (l_qry_args l, i)).

(** An [eval] that also knows the expression [qry_args.clear()], which
    empties the list and has the value [None]. *)
Definition clearing_eval (l : eval_locals) (i : unit)
  : outcome pyval * (list pyval * unit) :=
  if list_eq_dec N.eq_dec (strip ascii_isspace (l_arg_str l))
                 (pystr "qry_args.clear()")
  then (Ok PyNone, ([], i))
  else literal_eval l i.

Section Connection.

(** The case folding table of the runtime, see [casefold]. *)
Variable unicode_fold : codepoint -> str.

(** [QueryResult] of [connection.py]: whatever a method of the client
    returns. *)
Variable QueryResult : Type.

(** The database server, and what a method of the client does to it. *)
Variable Server : Type.
Variable client_method :
  AsyncIOClient -> remote_call -> Server -> outcome QueryResult * Server.

(** Modelled from the spec: an entry of the cache, a value and the time
    it was stored at. *)
Record CacheEntry : Type := {
  entry_value : QueryResult;
  created_at : Z
}.

(** Modelled from the spec: the state of [alru_cache(ttl=ttl)]. *)
Record TTLCache : Type := {
  cache_ttl : Z;
  entries : list (CacheKey * CacheEntry)
}.

(** The entries of the cache, looked up by key; their order plays no
    role. *)
Fixpoint cache_get (k : CacheKey) (l : list (CacheKey * CacheEntry))
  : option CacheEntry :=
  match l with
  | [] => None
  | (k', e) :: l' => if CacheKey_eq_dec k k' then Some e else cache_get k l'
  end.

Fixpoint cache_del (k : CacheKey) (l : list (CacheKey * CacheEntry))
  : list (CacheKey * CacheEntry) :=
  match l with
  | [] => []
  | (k', e) :: l' =>
      if CacheKey_eq_dec k k' then cache_del k l' else (k', e) :: cache_del k l'
  end.

Definition cache_put (k : CacheKey) (e : CacheEntry)
                     (l : list (CacheKey * CacheEntry)) :=
  (k, e) :: cache_del k l.

(** Modelled from the spec: an entry is valid while [now - created_at < ttl]. *)
Definition entry_valid (ttl now : Z) (e : CacheEntry) : bool :=
  (now - created_at e <? ttl)%Z.

(** The instance attributes of [EdgeDBCloudConn].  [_secret_key = None]
    is the attribute after [del self._secret_key].  [_imquery_cache] is
    [Some] when [__init__] has rebound [self._imquery] to
    [alru_cache(ttl=ttl)(self._imquery)]. *)
Record EdgeDBCloudConn : Type := {
  _host : string;
  _port : Z;
  _database : string;
  _secret_key : option string;
  _client : option AsyncIOClient;
  _start : Z;
  _dbcalls : Z;
  _total_dbcalls : Z;
  _imquery_cache : option TTLCache
}.

(** What lies outside the process: the server, and the list of the
    invocations of client methods made so far (oldest first). *)
Record World : Type := {
  server : Server;
  remote_log : list remote_call
}.

Record state : Type := {
  self : EdgeDBCloudConn;
  world : World
}.

Definition M (A : Type) : Type := state -> outcome A * state.

Definition ret {A} (a : A) : M A := fun st => (Ok a, st).

Definition raise {A} (e : exn) : M A := fun st => (Raise e, st).

Definition bind {A B} (m : M A) (f : A -> M B) : M B :=
  fun st =>
    match m st with
    | (Ok a, st') => f a st'
    | (Raise e, st') => (Raise e, st')
    end.

Definition lift {A} (o : outcome A) : M A := fun st => (o, st).

Definition get_self : M EdgeDBCloudConn := fun st => (Ok (self st), st).

Definition put_self (c : EdgeDBCloudConn) : M unit :=
  fun st => (Ok tt, {| self := c; world := world st |}).


Notation "x <- c1 ;; c2" := (bind c1 (fun x => c2))
  (at level 61, c1 at next level, right associativity).
Notation "c1 ;; c2" := (bind c1 (fun _ => c2))
  (at level 61, right associativity).

(** Attribute writes. *)
Definition with_client (cl : AsyncIOClient) (c : EdgeDBCloudConn) : EdgeDBCloudConn :=
  {| _host := _host c; _port := _port c; _database := _database c;
     _secret_key := _secret_key c; _client := Some cl;
     _start := _start c; _dbcalls := _dbcalls c;
     _total_dbcalls := _total_dbcalls c; _imquery_cache := _imquery_cache c |}.

Definition del_secret_key (c : EdgeDBCloudConn) : EdgeDBCloudConn :=
  {| _host := _host c; _port := _port c; _database := _database c;
     _secret_key := None; _client := _client c;
     _start := _start c; _dbcalls := _dbcalls c;
     _total_dbcalls := _total_dbcalls c; _imquery_cache := _imquery_cache c |}.

Definition with_start (t : Z) (c : EdgeDBCloudConn) : EdgeDBCloudConn :=
  {| _host := _host c; _port := _port c; _database := _database c;
     _secret_key := _secret_key c; _client := _client c;
     _start := t; _dbcalls := _dbcalls c;
     _total_dbcalls := _total_dbcalls c; _imquery_cache := _imquery_cache c |}.

Definition with_dbcalls (n : Z) (c : EdgeDBCloudConn) : EdgeDBCloudConn :=
  {| _host := _host c; _port := _port c; _database := _database c;
     _secret_key := _secret_key c; _client := _client c;
     _start := _start c; _dbcalls := n;
     _total_dbcalls := _total_dbcalls c; _imquery_cache := _imquery_cache c |}.

Definition with_total_dbcalls (n : Z) (c : EdgeDBCloudConn) : EdgeDBCloudConn :=
  {| _host := _host c; _port := _port c; _database := _database c;
     _secret_key := _secret_key c; _client := _client c;
     _start := _start c; _dbcalls := _dbcalls c;
     _total_dbcalls := n; _imquery_cache := _imquery_cache c |}.

Definition with_imquery_cache (k : option TTLCache) (c : EdgeDBCloudConn)
  : EdgeDBCloudConn :=
  {| _host := _host c; _port := _port c; _database := _database c;
     _secret_key := _secret_key c; _client := _client c;
     _start := _start c; _dbcalls := _dbcalls c;
     _total_dbcalls := _total_dbcalls c; _imquery_cache := k |}.

(* ================================================================== *)
(** ** [ecc/connection.py]: EdgeDBCloudConn *)
(* ================================================================== *)

(** [EdgeDBCloudConn.__init__] *)
Definition __init__ (host : string) (port : Z) (database secret_key : string)
                    (ttl : Z) : EdgeDBCloudConn :=
  {| _host := host; _port := port; _database := database;
     _secret_key := Some secret_key;
     _client := None;
     _start := 0; _dbcalls := 0; _total_dbcalls := 0;
     _imquery_cache :=
       if (0 <? ttl)%Z then Some {| cache_ttl := ttl; entries := [] |}
       else None |}.

(** The property [EdgeDBCloudConn.client]. *)
Definition client : M AsyncIOClient :=
  c <- get_self ;;
  match _client c with
  | None =>
      match _secret_key c with
      | None => raise AttributeError
      | Some secret_key =>
          let cl := create_async_client (_host c) (_port c) (_database c)
                                        secret_key in
          put_self (del_secret_key (with_client cl c)) ;;
          ret cl
      end
  | Some cl => ret cl
  end.

(** A method of the client is invoked: the call is recorded. *)
Definition issue_call (rc : remote_call) : M unit :=
  fun st =>
    (Ok tt, {| self := self st;
               world := {| server := server (world st);
                           remote_log := remote_log (world st) ++ [rc] |} |}).

(** The server answers a call. *)
Definition answer_call (cl : AsyncIOClient) (rc : remote_call) : M QueryResult :=
  fun st =>
    let (o, srv) := client_method cl rc (server (world st)) in
    (o, {| self := self st;
           world := {| server := srv; remote_log := remote_log (world st) |} |}).

(** Awaiting a method of the client to its end. *)
Definition call_client (cl : AsyncIOClient) (rc : remote_call) : M QueryResult :=
  issue_call rc ;; answer_call cl rc.

(** [EdgeDBCloudConn._get_client_qry_func]: [getattr] evaluates
    [self.client] first, then the name. *)
Definition _get_client_qry_func (jsonify0 : RespJson)
                                (required_single0 : RespConstraint)
  : M (str -> list pyval -> kwargs_t -> M QueryResult) :=
  cl <- client ;;
  name <- lift (match_func_name (PyRespJson jsonify0)
                                (PyRespConstraint required_single0)) ;;
  ret (fun q args kwargs =>
         call_client cl {| rc_func := name; rc_qry := q;
                           rc_args := args; rc_kwargs := kwargs |}).

(** [EdgeDBCloudConn._query] *)
Definition _query (r : QueryRecord) : M QueryResult :=
  c <- get_self ;;
  put_self (with_dbcalls (_dbcalls c + 1) c) ;;
  qry_func <- _get_client_qry_func (jsonify r) (required_single r) ;;
  qry_func (qry r) (extra_args r) (extra_kwargs r).

(** [EdgeDBCloudConn._imquery], as the class defines it. *)
Definition _imquery (r : QueryRecord) : M QueryResult := _query r.

(** [EdgeDBCloudConn._mquery] *)
Definition _mquery (r : QueryRecord) : M QueryResult := _query r.

(** Modelled from the spec: a change to the entries of the cache, when
    the connection has one. *)
Definition update_cache (f : list (CacheKey * CacheEntry) ->
                             list (CacheKey * CacheEntry)) : M unit :=
  c <- get_self ;;
  match _imquery_cache c with
  | None => ret tt
  | Some cache =>
      put_self (with_imquery_cache
                  (Some {| cache_ttl := cache_ttl cache;
                           entries := f (entries cache) |}) c)
  end.

(** Modelled from the spec: a call of the function that [alru_cache]
    returns, awaited to its end at time [now].  No key: CacheKeyError.
    A valid entry: its value, and the wrapped function is not run.  No
    entry, or a stale one (which is dropped): the wrapped function runs,
    and its result is stored with the current time; a failure is passed on
    and nothing is stored. *)
Definition alru_call (wrapped : QueryRecord -> M QueryResult)
                     (cache : TTLCache) (now : Z) (r : QueryRecord)
  : M QueryResult :=
  match make_key r with
  | None => raise CacheKeyError
  | Some k =>
      let miss :=
        update_cache (cache_del k) ;;
        v <- wrapped r ;;
        update_cache (cache_put k {| entry_value := v; created_at := now |}) ;;
        ret v in
      match cache_get k (entries cache) with
      | Some e =>
          if entry_valid (cache_ttl cache) now e then ret (entry_value e)
          else miss
      | None => miss
      end
  end.

(** The attribute [self._imquery]: the method of the class, or what
    [__init__] has put in its place. *)
Definition self_imquery (now : Z) (r : QueryRecord) : M QueryResult :=
  c <- get_self ;;
  match _imquery_cache c with
  | None => _imquery r
  | Some cache => alru_call _imquery cache now r
  end.

(** [EdgeDBCloudConn.query], awaited at time [now]. *)
Definition query (now : Z) (r : QueryRecord) : M QueryResult :=
  if _is_qry_immutable unicode_fold (qry r)
  then self_imquery now r
  else _mquery r.

(** [EdgeDBCloudConn._reset_db_calls] *)
Definition _reset_db_calls : M unit :=
  c <- get_self ;; put_self (with_dbcalls 0 c).

(** [EdgeDBCloudConn._reset_total_db_calls] *)
Definition _reset_total_db_calls : M unit :=
  c <- get_self ;; put_self (with_total_dbcalls 0 c).

(** [EdgeDBCloudConn._reset_start] *)
Definition _reset_start : M unit :=
  c <- get_self ;; put_self (with_start 0 c).

(** [EdgeDBCloudConn.__aenter__]; [now] is [get_cur_timestamp()]. *)
Definition __aenter__ (now : Z) : M unit :=
  c <- get_self ;; put_self (with_start now c).

(** [asyncio.CancelledError], raised at the [await] of a task that is
    cancelled while it waits. *)
Definition CancelledError : exn := OtherError "CancelledError".

(** What an [await asyncio.sleep(...)] can be for the task that awaits
    it is a computation of its own: the loop runs the other tasks, which
    may use the connection and the server, and then the task goes on, or
    it is cancelled and the [await] raises.  The two plain cases: a sleep
    that returns with nothing done in between, and a sleep during which
    the task is cancelled. *)
Definition slept : M unit := ret tt.

Definition cancelled : M unit := raise CancelledError.

(** [EdgeDBCloudConn.__aexit__]; [exc] is the exception leaving the
    block, if any, [sleep] is what its [await asyncio.sleep(1e-5)] turns
    out to be, and [now] the time read after the counters are settled.
    What precedes the sleep is logging.  An exception raised at the
    [await] leaves the method there, before the counters are touched.
    The method ends without a [return]: it yields [None]. *)
Definition __aexit__ (exc : option exn) (sleep : M unit) (now : Z) : M pyval :=
  sleep ;;
  c <- get_self ;;
  put_self (with_total_dbcalls (_total_dbcalls c + _dbcalls c) c) ;;
  _reset_db_calls ;;
  c' <- get_self ;;
  let elapsed := (now - _start c')%Z in
  _reset_start ;;
  ret PyNone.

(** Truth value of what [__aexit__] returns. *)
Definition truthy (v : pyval) : bool :=
  match v with
  | PyNone => false
  | PyInt n => negb (n =? 0)%Z
  | PyStr s => negb (Nat.eqb (List.length s) 0)
  | PyTuple l | PyList l => negb (Nat.eqb (List.length l) 0)
  | _ => true
  end.

Definition exc_of {A} (o : outcome A) : option exn :=
  match o with
  | Ok _ => None
  | Raise e => Some e
  end.

(** [async with self: body], entered at [t_in] and left at [t_out], with
    [sleep] for the sleep of its [__aexit__].  An exception of the body is
    suppressed exactly when [__aexit__] returns a true value; the
    statement then ends without a value.  An exception that [__aexit__]
    raises takes the place of the one of the body. *)
Definition async_with {A} (t_in : Z) (sleep : M unit) (t_out : Z) (body : M A)
  : M (option A) :=
  fun st =>
    let (_, st1) := __aenter__ t_in st in
    let (o, st2) := body st1 in
    match __aexit__ (exc_of o) sleep t_out st2 with
    | (Ok suppress, st3) =>
        match o with
        | Ok a => (Ok (Some a), st3)
        | Raise e => if truthy suppress then (Ok None, st3) else (Raise e, st3)
        end
    | (Raise e', st3) => (Raise e', st3)
    end.

(** Requests issued one after the other, each awaited before the next;
    a failure does not stop the caller from issuing the next one. *)
Fixpoint query_each (reqs : list (Z * QueryRecord)) (st : state)
  : list (outcome QueryResult) * state :=
  match reqs with
  | [] => ([], st)
  | (now, r) :: rest =>
      let (o, st1) := query now r st in
      let (os, st2) := query_each rest st1 in
      (o :: os, st2)
  end.

(** The same request issued at each of the times [ts]. *)
Definition repeat_query (r : QueryRecord) (ts : list Z) : list (Z * QueryRecord) :=
  map (fun t => (t, r)) ts.

(* ================================================================== *)
(** ** The health probe *)
(* ================================================================== *)

(** The network, as [httpx.get] finds it when called. *)
Variable httpx_get : http_request -> http_reply.

(** [str(n)] of an [int]. *)
Definition str_of_int (n : Z) : string :=
  NilZero.string_of_int (Z.to_int n).

(** The property [EdgeDBCloudConn._healthy_check_url] *)
Definition _healthy_check_url (c : EdgeDBCloudConn) : string :=
  ("https://" ++ _host c ++ ":" ++ str_of_int (_port c)
     ++ "/server/status/alive")%string.

(** The property [EdgeDBCloudConn.is_healthy] *)
Definition is_healthy (c : EdgeDBCloudConn) : outcome bool :=
  match httpx_get {| url := _healthy_check_url c;
                     follow_redirects := true;
                     verify := false;
                     timeout := 30 |} with
  | Response status_code => Ok (status_code =? 200)%Z
  | HttpxRaises e =>
      if isinstance_HTTPError e then Ok false
      else Raise (HttpxException e)
  end.

(* ================================================================== *)
(** ** Histories of a connection *)
(* ================================================================== *)

(** What a caller may do with a connection, one step after the other.
    What other tasks do while an exit sleeps are steps of the history
    before the exit; an exit that is cancelled in its sleep is a step of
    its own. *)
Inductive action : Type :=
| DoClient                                  (* conn.client *)
| DoQuery (now : Z) (r : QueryRecord)        (* await conn.query(...) *)
| DoEnter (now : Z)                          (* await conn.__aenter__() *)
| DoExit (exc : option exn) (now : Z)        (* await conn.__aexit__(...) *)
| DoResetTotal                               (* conn._reset_total_db_calls() *)
| DoCancelledExit (exc : option exn) (now : Z). (* __aexit__, cancelled *)

Definition perform1 (a : action) (st : state) : state :=
  match a with
  | DoClient => snd (client st)
  | DoQuery now r => snd (query now r st)
  | DoEnter now => snd (__aenter__ now st)
  | DoExit exc now => snd (__aexit__ exc slept now st)
  | DoResetTotal => snd (_reset_total_db_calls st)
  | DoCancelledExit exc now => snd (__aexit__ exc cancelled now st)
  end.

Definition perform (acts : list action) (st : state) : state :=
  fold_left (fun s a => perform1 a s) acts st.

(** The connection right after [EdgeDBCloudConn(host=..., ..., ttl=ttl)],
    facing a server [srv]; no call has been made. *)
Definition fresh (host : string) (port : Z) (database secret_key : string)
                 (ttl : Z) (srv : Server) : state :=
  {| self := __init__ host port database secret_key ttl;
     world := {| server := srv; remote_log := [] |} |}.

(** The client of a connection, made already or yet to be made. *)
Definition client_of (c : EdgeDBCloudConn) : AsyncIOClient :=
  match _client c with
  | Some cl => cl
  | None =>
      create_async_client (_host c) (_port c) (_database c)
        match _secret_key c with Some k => k | None => EmptyString end
  end.

(** The invocation that [_query] makes for a request. *)
Definition call_of (r : QueryRecord) : remote_call :=
  {| rc_func :=
       match match_func_name (PyRespJson (jsonify r))
                             (PyRespConstraint (required_single r)) with
       | Ok name => name
       | Raise _ => EmptyString
       end;
     rc_qry := qry r; rc_args := extra_args r; rc_kwargs := extra_kwargs r |}.

(** Modelled from the spec: the value of the valid entry of a key at a
    time, if the connection caches and has one. *)
Definition cached_value (c : EdgeDBCloudConn) (k : CacheKey) (now : Z)
  : option QueryResult :=
  match _imquery_cache c with
  | None => None
  | Some cache =>
      match cache_get k (entries cache) with
      | Some e =>
          if entry_valid (cache_ttl cache) now e then Some (entry_value e)
          else None
      | None => None
      end
  end.

(** A connection can still produce its client: made, or the key is there. *)
Definition credentials_ok (c : EdgeDBCloudConn) : bool :=
  match _client c, _secret_key c with
  | None, None => false
  | _, _ => true
  end.

(** The connection after its client was asked for. *)
Definition connected (c : EdgeDBCloudConn) : EdgeDBCloudConn :=
  match _client c with
  | Some _ => c
  | None => del_secret_key (with_client (client_of c) c)
  end.

(** What every state reached from [__init__(..., ttl=ttl)] satisfies. *)
Definition conn_inv (ttl : Z) (c : EdgeDBCloudConn) : Prop :=
  credentials_ok c = true /\
  option_map cache_ttl (_imquery_cache c) =
    (if (0 <? ttl)%Z then Some ttl else None).

(** A request is direct in a state when [query] hands it to [_query]
    without a cache in between. *)
Definition direct (r : QueryRecord) (c : EdgeDBCloudConn) : Prop :=
  _is_qry_immutable unicode_fold (qry r) = false \/ _imquery_cache c = None.

(** The body of a session window: requests issued one after the other,
    and then, possibly, an exception that leaves the block. *)
Definition window_body (reqs : list (Z * QueryRecord)) (failure : option exn)
  : M (list (outcome QueryResult)) :=
  fun st =>
    let (os, st') := query_each reqs st in
    (match failure with None => Ok os | Some e => Raise e end, st').

(** The number of invocations of the client made so far. *)
Definition remote_calls (st : state) : Z :=
  Z.of_nat (List.length (remote_log (world st))).

(* ================================================================== *)
(** ** Requests in flight together *)
(* ================================================================== *)

(** [_query] up to its [await]: the counter, the client, the name of the
    method, and the invocation goes out. *)
Definition _query_issue (r : QueryRecord) : M (AsyncIOClient * remote_call) :=
  c <- get_self ;;
  put_self (with_dbcalls (_dbcalls c + 1) c) ;;
  cl <- client ;;
  name <- lift (match_func_name (PyRespJson (jsonify r))
                                (PyRespConstraint (required_single r))) ;;
  let rc := {| rc_func := name; rc_qry := qry r;
               rc_args := extra_args r; rc_kwargs := extra_kwargs r |} in
  issue_call rc ;;
  ret (cl, rc).

(** Modelled from the spec: the single execution that serves every
    request of one key that arrives while it lasts.  [fl_call] is set
    once the execution has reached the server. *)
Record flight : Type := {
  fl_request : QueryRecord;
  fl_waiters : list nat;
  fl_call : option (AsyncIOClient * remote_call)
}.

(** The tasks of one event loop around a connection: the connection and
    the world, the executions the cache has started, the calls that go to
    the server without the cache, and what each finished task received. *)
Record tasks : Type := {
  conn : state;
  flights : list (CacheKey * flight);
  direct_calls : list (nat * (AsyncIOClient * remote_call));
  delivered : list (nat * outcome QueryResult)
}.

(** What the event loop does next.  A task runs from one suspension to
    the next without interruption. *)
Inductive event : Type :=
| Arrive (task : nat) (now : Z) (r : QueryRecord) (* a task calls query *)
| Run (k : CacheKey)            (* the execution for [k] runs to its await *)
| Complete (k : CacheKey) (now : Z)  (* the server answers the execution *)
| CompleteDirect (task : nat).  (* the server answers an uncached call *)

Fixpoint flight_get (k : CacheKey) (l : list (CacheKey * flight)) : option flight :=
  match l with
  | [] => None
  | (k', fl) :: l' => if CacheKey_eq_dec k k' then Some fl else flight_get k l'
  end.

Fixpoint flight_del (k : CacheKey) (l : list (CacheKey * flight))
  : list (CacheKey * flight) :=
  match l with
  | [] => []
  | (k', fl) :: l' =>
      if CacheKey_eq_dec k k' then flight_del k l' else (k', fl) :: flight_del k l'
  end.

Definition flight_put (k : CacheKey) (fl : flight) (l : list (CacheKey * flight)) :=
  (k, fl) :: flight_del k l.

Fixpoint direct_get (task : nat) (l : list (nat * (AsyncIOClient * remote_call)))
  : option (AsyncIOClient * remote_call) :=
  match l with
  | [] => None
  | (t, x) :: l' => if Nat.eqb task t then Some x else direct_get task l'
  end.

Fixpoint direct_del (task : nat) (l : list (nat * (AsyncIOClient * remote_call)))
  : list (nat * (AsyncIOClient * remote_call)) :=
  match l with
  | [] => []
  | (t, x) :: l' =>
      if Nat.eqb task t then direct_del task l' else (t, x) :: direct_del task l'
  end.

(** Every task of [waiters] receives [o]. *)
Definition hand_out (waiters : list nat) (o : outcome QueryResult)
  : list (nat * outcome QueryResult) :=
  map (fun t => (t, o)) waiters.

(** A request that does not go through the cache: [_query] runs to its
    await, or fails before it. *)
Definition arrive_direct (task : nat) (r : QueryRecord) (m : tasks) : tasks :=
  match _query_issue r (conn m) with
  | (Ok x, st') =>
      {| conn := st'; flights := flights m;
         direct_calls := direct_calls m ++ [(task, x)];
         delivered := delivered m |}
  | (Raise e, st') =>
      {| conn := st'; flights := flights m;
         direct_calls := direct_calls m;
         delivered := delivered m ++ [(task, Raise e)] |}
  end.

(** Modelled from the spec: a request that goes through the cache.  No
    key: CacheKeyError.  An execution for the key is under way: the task
    waits for it.  A valid entry: the task has its value.  Otherwise an
    execution is started, with the task as its first waiter. *)
Definition arrive_cached (task : nat) (now : Z) (r : QueryRecord) (m : tasks)
  : tasks :=
  match make_key r with
  | None =>
      {| conn := conn m; flights := flights m;
         direct_calls := direct_calls m;
         delivered := delivered m ++ [(task, Raise CacheKeyError)] |}
  | Some k =>
      match flight_get k (flights m) with
      | Some fl =>
          {| conn := conn m;
             flights := flight_put k {| fl_request := fl_request fl;
                                        fl_waiters := fl_waiters fl ++ [task];
                                        fl_call := fl_call fl |} (flights m);
             direct_calls := direct_calls m;
             delivered := delivered m |}
      | None =>
          match cached_value (self (conn m)) k now with
          | Some v =>
              {| conn := conn m; flights := flights m;
                 direct_calls := direct_calls m;
                 delivered := delivered m ++ [(task, Ok v)] |}
          | None =>
              {| conn := snd (update_cache (cache_del k) (conn m));
                 flights := flight_put k {| fl_request := r;
                                            fl_waiters := [task];
                                            fl_call := None |} (flights m);
                 direct_calls := direct_calls m;
                 delivered := delivered m |}
          end
      end
  end.

(** Modelled from the spec: one event, for what the cache does at
    [Arrive], [Run] and [Complete]; the code that runs in between is
    [_query] of the source, cut at its await.  [None] when the event
    cannot happen in the state. *)
Definition step (e : event) (m : tasks) : option tasks :=
  match e with
  | Arrive task now r =>
      if _is_qry_immutable unicode_fold (qry r) then
        match _imquery_cache (self (conn m)) with
        | None => Some (arrive_direct task r m)
        | Some _ => Some (arrive_cached task now r m)
        end
      else Some (arrive_direct task r m)
  | Run k =>
      match flight_get k (flights m) with
      | Some {| fl_request := r; fl_waiters := ws; fl_call := None |} =>
          match _query_issue r (conn m) with
          | (Ok x, st') =>
              Some {| conn := st';
                      flights := flight_put k {| fl_request := r;
                                                 fl_waiters := ws;
                                                 fl_call := Some x |} (flights m);
                      direct_calls := direct_calls m;
                      delivered := delivered m |}
          | (Raise e, st') =>
              Some {| conn := st';
                      flights := flight_del k (flights m);
                      direct_calls := direct_calls m;
                      delivered := delivered m ++ hand_out ws (Raise e) |}
          end
      | _ => None
      end
  | Complete k now =>
      match flight_get k (flights m) with
      | Some {| fl_request := r; fl_waiters := ws; fl_call := Some (cl, rc) |} =>
          match answer_call cl rc (conn m) with
          | (Ok v, st') =>
              Some {| conn := snd (update_cache
                                     (cache_put k {| entry_value := v;
                                                     created_at := now |}) st');
                      flights := flight_del k (flights m);
                      direct_calls := direct_calls m;
                      delivered := delivered m ++ hand_out ws (Ok v) |}
          | (Raise e, st') =>
              Some {| conn := st';
                      flights := flight_del k (flights m);
                      direct_calls := direct_calls m;
                      delivered := delivered m ++ hand_out ws (Raise e) |}
          end
      | _ => None
      end
  | CompleteDirect task =>
      match direct_get task (direct_calls m) with
      | Some (cl, rc) =>
          let (o, st') := answer_call cl rc (conn m) in
          Some {| conn := st'; flights := flights m;
                  direct_calls := direct_del task (direct_calls m);
                  delivered := delivered m ++ [(task, o)] |}
      | None => None
      end
  end.

(** A schedule: the events in the order the loop takes them. *)
Fixpoint run (sched : list event) (m : tasks) : option tasks :=
  match sched with
  | [] => Some m
  | e :: sched' =>
      match step e m with
      | Some m' => run sched' m'
      | None => None
      end
  end.

(** No task is under way. *)
Definition idle (st : state) : tasks :=
  {| conn := st; flights := []; direct_calls := []; delivered := [] |}.

(** A task, the time at which it calls [query], and its request. *)
Record arrival : Type := {
  arr_task : nat;
  arr_time : Z;
  arr_request : QueryRecord
}.

(** The arrival of each of the tasks, in order. *)
Definition arrivals (who : list arrival) : list event :=
  map (fun a => Arrive (arr_task a) (arr_time a) (arr_request a)) who.

(** The connection once a miss has dropped the entry of [k] and
    [_query] has run to its await. *)
Definition after_miss (k : CacheKey) (cache : TTLCache) (c : EdgeDBCloudConn)
  : EdgeDBCloudConn :=
  let c1 := with_imquery_cache
              (Some {| cache_ttl := cache_ttl cache;
                       entries := cache_del k (entries cache) |}) c in
  connected (with_dbcalls (_dbcalls c1 + 1) c1).

(** The events of one request that is awaited with no other task
    around. *)
Definition schedule_of (c : EdgeDBCloudConn) (task : nat) (now : Z)
                       (r : QueryRecord) : list event :=
  if _is_qry_immutable unicode_fold (qry r) then
    match _imquery_cache c with
    | None => [Arrive task now r; CompleteDirect task]
    | Some _ =>
        match make_key r with
        | None => [Arrive task now r]
        | Some k =>
            match cached_value c k now with
            | Some _ => [Arrive task now r]
            | None => [Arrive task now r; Run k; Complete k now]
            end
        end
    end
  else [Arrive task now r; CompleteDirect task].

(* ================================================================== *)
(** ** The rest of [EdgeDBCloudConn] *)
(* ================================================================== *)

(** What [AsyncIOClient.aclose] does when given [timeout] ticks: whether
    it is done in time, and the server after it. *)
Variable client_aclose : AsyncIOClient -> Z -> Server -> bool * Server.

(** [asyncio.TimeoutError], raised by [asyncio.wait_for]. *)
Definition TimeoutError : exn := OtherError "TimeoutError".

(** [EdgeDBCloudConn.aclose]: [self.client] is evaluated first, which
    makes the client if there is none yet; [wait_for] then lets its
    [aclose] run for [timeout] at most.  The attribute [_client] is not
    written. *)
Definition aclose (timeout : Z) : M unit :=
  cl <- client ;;
  fun st =>
    let (in_time, srv) := client_aclose cl timeout (server (world st)) in
    (if in_time then Ok tt else Raise TimeoutError,
     {| self := self st;
        world := {| server := srv; remote_log := remote_log (world st) |} |}).


(** No [_reset_total_db_calls] in a history. *)
Fixpoint never_reset (hist : list action) : bool :=
  match hist with
  | [] => true
  | DoResetTotal :: _ => false
  | _ :: hist' => never_reset hist'
  end.

(** A connection made with these four arguments: they are still its
    host, port and database, and either its client is not made and the
    key is kept, or the client is the one made from them and the key is
    deleted. *)
Definition born_of (host : string) (port : Z) (database secret_key : string)
                   (c : EdgeDBCloudConn) : Prop :=
  _host c = host /\ _port c = port /\ _database c = database /\
  ((_client c = None /\ _secret_key c = Some secret_key) \/
   (_client c = Some (create_async_client host port database secret_key) /\
    _secret_key c = None)).

(** The invariant of the histories: who the connection was born of, the
    key is gone once the server has been invoked, and the counters. *)
Definition history_inv (host : string) (port : Z) (database secret_key : string)
                       (ttl : Z) (st : state) : Prop :=
  conn_inv ttl (self st) /\
  born_of host port database secret_key (self st) /\
  (remote_log (world st) <> [] -> _secret_key (self st) = None) /\
  (0 <= _dbcalls (self st))%Z /\ (0 <= _total_dbcalls (self st))%Z /\
  (_dbcalls (self st) + _total_dbcalls (self st) <= remote_calls st)%Z.

(** The tasks of a loop together with the windows of the context
    manager: a task may be created inside [async with self] and get its
    answer after the window is left, as [st_utils._create_task_from_form]
    does.  [WindowExit] is [__aexit__] from the end of its sleep on. *)
Inductive session_event : Type :=
| OfLoop (e : event)
| WindowEnter (now : Z)
| WindowExit (exc : option exn) (now : Z).

Definition session_step (e : session_event) (m : tasks) : option tasks :=
  match e with
  | OfLoop e' => step e' m
  | WindowEnter now =>
      Some {| conn := snd (__aenter__ now (conn m)); flights := flights m;
              direct_calls := direct_calls m; delivered := delivered m |}
  | WindowExit exc now =>
      Some {| conn := snd (__aexit__ exc slept now (conn m)); flights := flights m;
              direct_calls := direct_calls m; delivered := delivered m |}
  end.

Fixpoint session_run (sched : list session_event) (m : tasks) : option tasks :=
  match sched with
  | [] => Some m
  | e :: sched' =>
      match session_step e m with
      | Some m' => session_run sched' m'
      | None => None
      end
  end.

(** What the schedules of a session keep: the invariant of the
    connection, and the counters that add up to the invocations made. *)
Definition session_inv (ttl : Z) (m : tasks) : Prop :=
  conn_inv ttl (self (conn m)) /\
  (_dbcalls (self (conn m)) + _total_dbcalls (self (conn m)))%Z
    = remote_calls (conn m).

(** Opens the monad of the connection in a goal. *)
Ltac unfold_monad :=
  unfold bind, ret, raise, lift, get_self, put_self in *.

Unset Implicit Arguments.

(* ================================================================== *)
(** ** Notions of the specification *)
(* ================================================================== *)

(** [kw] occurs in [text] as a contiguous piece. *)
Definition infix (kw text : str) : Prop :=
  exists pre post, text = pre ++ kw ++ post.

(** Caseless containment: [kw] occurs in [text] once both are case
    folded. *)
Definition caseless_infix (kw text : str) : Prop :=
  infix (casefold unicode_fold kw) (casefold unicode_fold text).

Definition ascii_lower (c : codepoint) : codepoint :=
  if is_ascii_upper c then (c + 32)%N else c.

(** Two characters that are the same letter up to ASCII case. *)
Definition same_letter (a b : codepoint) : Prop :=
  ascii_lower a = ascii_lower b.

(** Some piece of [text] reads [kw] letter by letter, case ignored. *)
Definition ci_substring (kw text : str) : Prop :=
  exists pre mid post,
    text = pre ++ mid ++ post /\ Forall2 same_letter mid kw.

(** The keywords as the specification lists them. *)
Definition spec_keywords : list str :=
  [pystr "insert"; pystr "update"; pystr "delete"].

(** The six combinations of the two enumerations. *)
Definition all_combinations : list (RespJson * RespConstraint) :=
  list_prod [NO; YES] [FREE; NO_MORE_THAN_ONE; EXACTLY_ONE].

(* ================================================================== *)
(** ** Properties of the selector and of the classifier *)
(* ================================================================== *)

Lemma startswith_iff (p s : str) :
  startswith p s = true <-> exists post, s = p ++ post.
Proof.
  revert s; induction p as [|a p IH]; intros s; simpl.
  - split; [intros _; now exists s | reflexivity].
  - destruct s as [|b s].
    + split; [discriminate | intros [post H]; discriminate].
    + rewrite andb_true_iff, N.eqb_eq, IH. split.
      * intros [-> [post ->]]. now exists post.
      * intros [post H]. injection H as -> ->. split; [reflexivity | now exists post].
Qed.

Lemma str_in_iff (needle hay : str) :
  str_in needle hay = true <-> infix needle hay.
Proof.
  unfold infix. induction hay as [|c hay IH].
  - simpl. rewrite orb_false_r, startswith_iff. split.
    + intros [post H]. now exists [], post.
    + intros [pre [post H]].
      destruct pre; [now exists post | discriminate].
  - cbn [str_in]. rewrite orb_true_iff, startswith_iff, IH. split.
    + intros [[post H] | [pre [post H]]].
      * now exists [], post.
      * exists (c :: pre), post. now rewrite H.
    + intros [pre [post H]]. destruct pre as [|c' pre].
      * left. now exists post.
      * right. injection H as _ H. now exists pre, post.
Qed.

Lemma casefold_ascii (s : str) :
  forallb is_ascii s = true -> casefold unicode_fold s = map ascii_lower s.
Proof.
  unfold casefold.
  induction s as [|c s IH]; cbn [forallb flat_map map]; [reflexivity|].
  rewrite andb_true_iff. intros [Hc Hs].
  rewrite (IH Hs).
  unfold casefold_char, ascii_lower. rewrite Hc.
  now destruct (is_ascii_upper c).
Qed.

Lemma ascii_lower_idem (c : codepoint) : ascii_lower (ascii_lower c) = ascii_lower c.
Proof.
  unfold ascii_lower, is_ascii_upper.
  destruct (N.leb 65 c && N.leb c 90)%N eqn:E; [|now rewrite E].
  apply andb_true_iff in E as [E1 E2].
  apply N.leb_le in E1, E2.
  replace (N.leb (c + 32) 90) with false; [now rewrite andb_false_r|].
  symmetry. apply N.leb_gt. lia.
Qed.

Lemma Forall2_same_letter_map (mid kw : str) :
  map ascii_lower kw = kw ->
  (Forall2 same_letter mid kw <-> map ascii_lower mid = kw).
Proof.
  revert kw; induction mid as [|a mid IH]; intros [|b kw]; simpl; intros Hkw.
  - split; [reflexivity | constructor].
  - split; [intros H; inversion H | discriminate].
  - split; [intros H; inversion H | discriminate].
  - injection Hkw as Hb Hkw. split.
    + intros H. inversion H; subst. unfold same_letter in *.
      f_equal; [congruence | now apply IH].
    + intros H. injection H as Ha Hm. constructor.
      * unfold same_letter. rewrite <- Ha. now rewrite ascii_lower_idem.
      * now apply IH.
Qed.

Lemma spec_keywords_lower (kw : str) :
  In kw spec_keywords ->
  map ascii_lower kw = kw /\ casefold unicode_fold kw = kw.
Proof.
  intros [<- | [<- | [<- | []]]]; split; reflexivity.
Qed.

Lemma spec_keywords_ascii (kw : str) :
  In kw spec_keywords -> forallb is_ascii kw = true.
Proof.
  intros [<- | [<- | [<- | []]]]; reflexivity.
Qed.

(** A piece that reads a lower case ASCII word letter by letter folds to
    that word, whatever surrounds it. *)
Lemma casefold_same_letter (mid kw : str) :
  map ascii_lower kw = kw -> forallb is_ascii kw = true ->
  Forall2 same_letter mid kw -> casefold unicode_fold mid = kw.
Proof.
  unfold casefold. intros Hlow Hascii H. revert Hlow Hascii.
  induction H as [|a b mid kw Hab _ IH]; cbn [map forallb flat_map];
    [reflexivity|].
  intros Hlow Hascii. injection Hlow as Hb Hlow.
  apply andb_true_iff in Hascii as [Hb' Hascii].
  rewrite (IH Hlow Hascii).
  unfold same_letter in Hab. rewrite Hb in Hab.
  unfold casefold_char. unfold ascii_lower in Hab, Hb.
  destruct (is_ascii_upper a) eqn:Ea.
  - now rewrite Hab.
  - subst a. now rewrite Hb'.
Qed.

Lemma casefold_app (s1 s2 : str) :
  casefold unicode_fold (s1 ++ s2) =
  casefold unicode_fold s1 ++ casefold unicode_fold s2.
Proof. unfold casefold. apply flat_map_app. Qed.

Lemma ci_substring_caseless (kw text : str) :
  In kw spec_keywords -> ci_substring kw text -> caseless_infix kw text.
Proof.
  intros Hkw [pre [mid [post [-> H]]]].
  destruct (spec_keywords_lower kw Hkw) as [Hlow Hfold].
  unfold caseless_infix, infix. rewrite Hfold, !casefold_app.
  rewrite (casefold_same_letter mid kw Hlow (spec_keywords_ascii kw Hkw) H).
  now exists (casefold unicode_fold pre), (casefold unicode_fold post).
Qed.

Lemma caseless_infix_ascii (kw text : str) :
  In kw spec_keywords -> forallb is_ascii text = true ->
  caseless_infix kw text -> ci_substring kw text.
Proof.
  intros Hkw Hascii. destruct (spec_keywords_lower kw Hkw) as [Hlow Hfold].
  unfold caseless_infix, infix, ci_substring.
  rewrite Hfold, (casefold_ascii text Hascii).
  intros [pre' [post' H]].
  apply map_eq_app in H as [pre [rest [-> [Hpre H]]]].
  apply map_eq_app in H as [mid [post [-> [Hmid Hpost]]]].
  exists pre, mid, post. split; [reflexivity|].
  now apply Forall2_same_letter_map.
Qed.

(** C2.  The query is mutating exactly when its text contains "insert",
    "update" or "delete" with case ignored, wherever the keyword stands.
    The classifier searches the case folded text: for every text this is
    caseless containment of a keyword; a piece of the text that reads a
    keyword letter by letter in either case always counts, inside an
    identifier or not, and for a text of ASCII characters nothing else
    does.  The classifier is a total function of the text alone. *)
Theorem classify_mutating_iff_keyword :
  (forall text : str,
      _is_qry_immutable unicode_fold text = false <->
      exists kw, In kw spec_keywords /\ caseless_infix kw text) /\
  (forall text : str,
      _is_qry_immutable unicode_fold text = true <->
      forall kw, In kw spec_keywords -> ~ caseless_infix kw text) /\
  (forall text kw : str,
      In kw spec_keywords -> ci_substring kw text ->
      _is_qry_immutable unicode_fold text = false) /\
  (forall text : str,
      forallb is_ascii text = true ->
      (_is_qry_immutable unicode_fold text = false <->
       exists kw, In kw spec_keywords /\ ci_substring kw text)).
Proof.
  assert (Hchar : forall text kw, In kw spec_keywords ->
            (str_in kw (casefold unicode_fold text) = true <->
             caseless_infix kw text)).
  { intros text kw Hkw. unfold caseless_infix.
    destruct (spec_keywords_lower kw Hkw) as [_ ->]. apply str_in_iff. }
  assert (Hmut : forall text,
            _is_qry_immutable unicode_fold text = false <->
            exists kw, In kw spec_keywords /\ caseless_infix kw text).
  { intros text. unfold _is_qry_immutable, _mutated_kws.
    fold spec_keywords. split.
    - intros H.
      destruct (forallb_forall
                  (fun kw => negb (str_in kw (casefold unicode_fold text)))
                  spec_keywords) as [_ Hall].
      destruct (existsb (fun kw => str_in kw (casefold unicode_fold text))
                        spec_keywords) eqn:E.
      + apply existsb_exists in E as [kw [Hin Hkw]].
        exists kw. split; [assumption | now apply Hchar].
      + exfalso. rewrite Hall in H; [discriminate|].
        intros kw Hin. apply negb_true_iff.
        destruct (str_in kw (casefold unicode_fold text)) eqn:E'; [|reflexivity].
        assert (existsb (fun kw => str_in kw (casefold unicode_fold text))
                        spec_keywords = true)
          by (apply existsb_exists; now exists kw).
        congruence.
    - intros [kw [Hin Hkw]]. apply Hchar in Hkw; [|assumption].
      apply not_true_is_false. intros Hall.
      rewrite forallb_forall in Hall. specialize (Hall kw Hin).
      now rewrite Hkw in Hall. }
  split; [exact Hmut | split; [|split]].
  - intros text. split.
    + intros H kw Hin Hkw.
      assert (_is_qry_immutable unicode_fold text = false)
        by (apply Hmut; now exists kw).
      congruence.
    + intros H. apply not_false_is_true. intros Hf.
      apply Hmut in Hf as [kw [Hin Hkw]]. exact (H kw Hin Hkw).
  - intros text kw Hin Hci. apply Hmut. exists kw.
    split; [assumption | now apply ci_substring_caseless].
  - intros text Hascii. rewrite Hmut. split.
    + intros [kw [Hin Hkw]]. exists kw.
      split; [assumption | now apply caseless_infix_ascii].
    + intros [kw [Hin Hkw]]. exists kw.
      split; [assumption | now apply ci_substring_caseless].
Qed.

(** C3.  The selector answers for each of the 2 x 3 = 6 combinations of
    the two enumerations, with six names that differ from each other, and
    the enumerations have no other member; on any other pair of objects it
    raises the AssertionError of [assert_never] and returns nothing. *)
Theorem match_func_name_total_distinct :
  (forall j : RespJson, In j [NO; YES]) /\
  (forall r : RespConstraint, In r [FREE; NO_MORE_THAN_ONE; EXACTLY_ONE]) /\
  List.length all_combinations = 6%nat /\
  (forall j r, exists name,
      match_func_name (PyRespJson j) (PyRespConstraint r) = Ok name) /\
  (forall j1 r1 j2 r2,
      match_func_name (PyRespJson j1) (PyRespConstraint r1) =
      match_func_name (PyRespJson j2) (PyRespConstraint r2) ->
      j1 = j2 /\ r1 = r2) /\
  (forall a b : pyval,
      (forall j r, (a, b) <> (PyRespJson j, PyRespConstraint r)) ->
      match_func_name a b = Raise AssertionError).
Proof.
  repeat split.
  - intros []; simpl; auto.
  - intros []; simpl; auto.
  - intros [] []; eexists; reflexivity.
  - destruct j1, r1, j2, r2; simpl in H; try reflexivity; discriminate.
  - destruct j1, r1, j2, r2; simpl in H; try reflexivity; discriminate.
  - intros a b H.
    destruct a as [| | |j| | |]; try reflexivity;
      destruct b as [| | | |r| |];
      try (destruct j; reflexivity).
    exfalso. now apply (H j r).
Qed.

(* ================================================================== *)
(** ** One execution of [_query] *)
(* ================================================================== *)

Lemma _query_run (r : QueryRecord) (c : EdgeDBCloudConn) (w : World) :
  credentials_ok c = true ->
  _query r {| self := c; world := w |} =
  (fst (client_method (client_of c) (call_of r) (server w)),
   {| self := connected (with_dbcalls (_dbcalls c + 1) c);
      world := {| server := snd (client_method (client_of c) (call_of r) (server w));
                  remote_log := remote_log w ++ [call_of r] |} |}).
Proof.
  intros Hok.
  unfold _query, _get_client_qry_func, client, call_client, issue_call,
    answer_call, connected, client_of, call_of, credentials_ok in *.
  unfold_monad. cbn.
  destruct (_client c) as [cl|] eqn:Ecl; cbn.
  - destruct (jsonify r), (required_single r); cbn;
      destruct (client_method _ _ _); reflexivity.
  - destruct (_secret_key c) as [k|] eqn:Ek; [|discriminate]. cbn.
    destruct (jsonify r), (required_single r); cbn;
      destruct (client_method _ _ _); reflexivity.
Qed.

Lemma connected_fields (c : EdgeDBCloudConn) :
  _dbcalls (connected c) = _dbcalls c /\
  _total_dbcalls (connected c) = _total_dbcalls c /\
  _imquery_cache (connected c) = _imquery_cache c /\
  _start (connected c) = _start c /\
  client_of (connected c) = client_of c /\
  (credentials_ok c = true -> credentials_ok (connected c) = true).
Proof.
  unfold connected, client_of, credentials_ok.
  destruct c as [h p d k cl s n t ca]; cbn.
  destruct cl; cbn; repeat split; auto.
Qed.

Lemma cache_get_del_same (k : CacheKey) (l : list (CacheKey * CacheEntry)) :
  cache_get k (cache_del k l) = None.
Proof.
  induction l as [|[k' e] l IH]; cbn; [reflexivity|].
  destruct (CacheKey_eq_dec k k') as [E|E]; [exact IH|].
  cbn. now destruct (CacheKey_eq_dec k k').
Qed.

Lemma cache_get_put_same (k : CacheKey) (e : CacheEntry)
                         (l : list (CacheKey * CacheEntry)) :
  cache_get k (cache_put k e l) = Some e.
Proof.
  unfold cache_put. cbn. now destruct (CacheKey_eq_dec k k).
Qed.

(** Without a cache, and for a mutating text with or without one,
    [query] is [_query]. *)
Lemma query_uncached (now : Z) (r : QueryRecord) (st : state) :
  _imquery_cache (self st) = None -> query now r st = _query r st.
Proof.
  intros H. unfold query, self_imquery, _mquery, _imquery.
  destruct (_is_qry_immutable unicode_fold (qry r)); [|reflexivity].
  unfold_monad. now rewrite H.
Qed.

Lemma query_mutating (now : Z) (r : QueryRecord) (st : state) :
  _is_qry_immutable unicode_fold (qry r) = false ->
  query now r st = _query r st.
Proof.
  intros H. unfold query, _mquery. now rewrite H.
Qed.

(** The cached path: no key. *)
Lemma query_no_key (now : Z) (r : QueryRecord) (st : state) :
  _is_qry_immutable unicode_fold (qry r) = true ->
  _imquery_cache (self st) <> None ->
  make_key r = None ->
  query now r st = (Raise CacheKeyError, st).
Proof.
  intros Him Hc Hk. unfold query, self_imquery, alru_call. unfold_monad.
  rewrite Him, Hk. destruct (_imquery_cache (self st)); [reflexivity|].
  now elim Hc.
Qed.

(** The cached path: a valid entry. *)
Lemma query_hit (now : Z) (r : QueryRecord) (st : state)
                (k : CacheKey) (v : QueryResult) :
  _is_qry_immutable unicode_fold (qry r) = true ->
  make_key r = Some k ->
  cached_value (self st) k now = Some v ->
  query now r st = (Ok v, st).
Proof.
  intros Him Hk Hv. unfold query, self_imquery, alru_call, cached_value in *.
  unfold_monad. rewrite Him, Hk.
  destruct (_imquery_cache (self st)) as [cache|]; [|discriminate].
  destruct (cache_get k (entries cache)) as [e|]; [|discriminate].
  destruct (entry_valid (cache_ttl cache) now e); [|discriminate].
  now injection Hv as ->.
Qed.

(** The cached path: no valid entry.  [_query] runs once; its value, if
    it has one, is stored. *)
Lemma query_miss_run (now : Z) (r : QueryRecord) (c : EdgeDBCloudConn) (w : World)
                     (k : CacheKey) (cache : TTLCache) :
  _is_qry_immutable unicode_fold (qry r) = true ->
  make_key r = Some k ->
  credentials_ok c = true ->
  _imquery_cache c = Some cache ->
  cached_value c k now = None ->
  query now r {| self := c; world := w |} =
  match fst (client_method (client_of c) (call_of r) (server w)) with
  | Ok v =>
      (Ok v,
       {| self := with_imquery_cache
                    (Some {| cache_ttl := cache_ttl cache;
                             entries := cache_put k
                               {| entry_value := v; created_at := now |}
                               (cache_del k (entries cache)) |})
                    (after_miss k cache c);
          world := {| server := snd (client_method (client_of c) (call_of r) (server w));
                      remote_log := remote_log w ++ [call_of r] |} |})
  | Raise e =>
      (Raise e,
       {| self := after_miss k cache c;
          world := {| server := snd (client_method (client_of c) (call_of r) (server w));
                      remote_log := remote_log w ++ [call_of r] |} |})
  end.
Proof.
  intros Him Hk Hok Hc Hv.
  set (ans := client_method (client_of c) (call_of r) (server w)).
  set (c1 := with_imquery_cache
               (Some {| cache_ttl := cache_ttl cache;
                        entries := cache_del k (entries cache) |}) c).
  assert (Hok1 : credentials_ok c1 = true) by exact Hok.
  assert (Hrun : _query r {| self := c1; world := w |} =
                 (fst ans,
                  {| self := after_miss k cache c;
                     world := {| server := snd ans;
                                 remote_log := remote_log w ++ [call_of r] |} |}))
    by (apply (_query_run r c1 w Hok1)).
  assert (Hca : _imquery_cache (after_miss k cache c) =
                Some {| cache_ttl := cache_ttl cache;
                        entries := cache_del k (entries cache) |})
    by (destruct (connected_fields (with_dbcalls (_dbcalls c1 + 1) c1))
          as (_ & _ & H & _); exact H).
  unfold query, self_imquery, alru_call, cached_value in *.
  rewrite Him, Hk. unfold_monad. cbn [self]. rewrite Hc in *.
  assert (Hmiss :
    match cache_get k (entries cache) with
    | Some e => entry_valid (cache_ttl cache) now e
    | None => false
    end = false).
  { destruct (cache_get k (entries cache)) as [e|]; [|reflexivity].
    now destruct (entry_valid (cache_ttl cache) now e). }
  assert (Hbody :
    (update_cache (cache_del k) ;;
     v <- _imquery r ;;
     update_cache (cache_put k {| entry_value := v; created_at := now |}) ;;
     ret v) {| self := c; world := w |} =
    match fst ans with
    | Ok v =>
        (Ok v,
         {| self := with_imquery_cache
                      (Some {| cache_ttl := cache_ttl cache;
                               entries := cache_put k
                                 {| entry_value := v; created_at := now |}
                                 (cache_del k (entries cache)) |})
                      (after_miss k cache c);
            world := {| server := snd ans;
                        remote_log := remote_log w ++ [call_of r] |} |})
    | Raise e =>
        (Raise e,
         {| self := after_miss k cache c;
            world := {| server := snd ans;
                        remote_log := remote_log w ++ [call_of r] |} |})
    end).
  { unfold update_cache, _imquery. unfold_monad. cbn [self world].
    rewrite Hc. cbn [self world]. fold c1. rewrite Hrun.
    destruct (fst ans) as [v|e]; [|reflexivity].
    cbn [self world]. rewrite Hca. cbn. reflexivity. }
  unfold_monad.
  destruct (cache_get k (entries cache)) as [e|].
  - rewrite Hmiss. exact Hbody.
  - exact Hbody.
Qed.

Lemma query_miss (now : Z) (r : QueryRecord) (c : EdgeDBCloudConn) (w : World)
                 (k : CacheKey) (cache : TTLCache) :
  _is_qry_immutable unicode_fold (qry r) = true ->
  make_key r = Some k ->
  credentials_ok c = true ->
  _imquery_cache c = Some cache ->
  cached_value c k now = None ->
  exists c',
    query now r {| self := c; world := w |} =
      (fst (client_method (client_of c) (call_of r) (server w)),
       {| self := c';
          world := {| server := snd (client_method (client_of c) (call_of r) (server w));
                      remote_log := remote_log w ++ [call_of r] |} |}) /\
    _dbcalls c' = (_dbcalls c + 1)%Z /\
    _total_dbcalls c' = _total_dbcalls c /\
    _start c' = _start c /\
    client_of c' = client_of c /\
    credentials_ok c' = true /\
    option_map cache_ttl (_imquery_cache c') = Some (cache_ttl cache) /\
    (forall v, fst (client_method (client_of c) (call_of r) (server w)) = Ok v ->
       forall now', (now' - now < cache_ttl cache)%Z ->
         cached_value c' k now' = Some v) /\
    (forall e, fst (client_method (client_of c) (call_of r) (server w)) = Raise e ->
       forall now', cached_value c' k now' = None).
Proof.
  intros Him Hk Hok Hc Hv.
  pose proof (query_miss_run now r c w k cache Him Hk Hok Hc Hv) as Hq.
  set (ans := client_method (client_of c) (call_of r) (server w)) in *.
  set (c1 := with_imquery_cache
               (Some {| cache_ttl := cache_ttl cache;
                        entries := cache_del k (entries cache) |}) c).
  destruct (connected_fields (with_dbcalls (_dbcalls c1 + 1) c1))
    as (Hd & Ht & Hca & Hs & Hcl & Hcr).
  change (connected (with_dbcalls (_dbcalls c1 + 1) c1))
    with (after_miss k cache c) in *.
  set (c2 := after_miss k cache c) in *.
  change (_dbcalls c2 = (_dbcalls c + 1)%Z) in Hd.
  change (_total_dbcalls c2 = _total_dbcalls c) in Ht.
  change (_imquery_cache c2 =
          Some {| cache_ttl := cache_ttl cache;
                  entries := cache_del k (entries cache) |}) in Hca.
  change (_start c2 = _start c) in Hs.
  change (client_of c2 = client_of c) in Hcl.
  specialize (Hcr Hok).
  destruct (fst ans) as [v|e] eqn:Eans.
  - eexists. split; [exact Hq|].
    repeat split.
    + exact Hd.
    + exact Ht.
    + exact Hs.
    + exact Hcl.
    + exact Hcr.
    + intros v' Hv' now' Hnow. injection Hv' as <-.
      unfold cached_value. cbn -[cache_put cache_get entry_valid].
      rewrite cache_get_put_same. unfold entry_valid. cbn.
      now apply Z.ltb_lt in Hnow as ->.
    + intros e He. discriminate.
  - exists c2. split; [exact Hq|].
    repeat split; try assumption.
    + now rewrite Hca.
    + intros v' Hv'. discriminate.
    + intros e' _ now'. unfold cached_value. rewrite Hca. cbn.
      now rewrite cache_get_del_same.
Qed.

(* ================================================================== *)
(** ** The invariant of a connection *)
(* ================================================================== *)

Lemma conn_inv_fresh host port database secret_key ttl srv :
  conn_inv ttl (self (fresh host port database secret_key ttl srv)).
Proof.
  unfold conn_inv, fresh, __init__, credentials_ok. cbn.
  split; [reflexivity|]. now destruct (0 <? ttl)%Z.
Qed.

Lemma client_inv (ttl : Z) (st : state) :
  conn_inv ttl (self st) -> conn_inv ttl (self (snd (client st))).
Proof.
  unfold conn_inv, client, credentials_ok. unfold_monad.
  destruct st as [c w]. cbn.
  destruct (_client c) eqn:E1; cbn; [now rewrite E1|].
  destruct (_secret_key c) eqn:E2; cbn; [tauto|].
  now rewrite E1, E2.
Qed.

Lemma query_inv (ttl now : Z) (r : QueryRecord) (st : state) :
  conn_inv ttl (self st) -> conn_inv ttl (self (snd (query now r st))).
Proof.
  intros [Hok Httl]. destruct st as [c w]. cbn [self] in *.
  assert (Hdirect : conn_inv ttl (self (snd (_query r {| self := c; world := w |})))).
  { rewrite (_query_run r c w Hok). cbn [snd self].
    destruct (connected_fields (with_dbcalls (_dbcalls c + 1) c))
      as (_ & _ & Hca & _ & _ & Hcr).
    split; [now apply Hcr | now rewrite Hca]. }
  destruct (_is_qry_immutable unicode_fold (qry r)) eqn:Him;
    [|now rewrite (query_mutating now r _ Him)].
  destruct (_imquery_cache c) as [cache|] eqn:Hc;
    [|now rewrite (query_uncached now r {| self := c; world := w |} Hc)].
  destruct (make_key r) as [k|] eqn:Hk.
  - destruct (cached_value c k now) as [v|] eqn:Hv.
    + rewrite (query_hit now r {| self := c; world := w |} k v Him Hk Hv).
      cbn. split; [assumption | now rewrite Hc].
    + destruct (query_miss now r c w k cache Him Hk Hok Hc Hv)
        as (c' & -> & _ & _ & _ & _ & Hok' & Httl' & _).
      cbn. split; [assumption|]. now rewrite Httl', <- Httl.
  - rewrite (query_no_key now r {| self := c; world := w |} Him); cbn;
      [split; [assumption | now rewrite Hc] | now rewrite Hc | assumption].
Qed.

Lemma perform1_inv (ttl : Z) (a : action) (st : state) :
  conn_inv ttl (self st) -> conn_inv ttl (self (perform1 a st)).
Proof.
  destruct a; cbn [perform1].
  - apply client_inv.
  - apply query_inv.
  - intros H; exact H.
  - intros H; exact H.
  - intros H; exact H.
  - intros H; exact H.
Qed.

Lemma perform_inv (ttl : Z) (acts : list action) (st : state) :
  conn_inv ttl (self st) -> conn_inv ttl (self (perform acts st)).
Proof.
  unfold perform. revert st.
  induction acts as [|a acts IH]; intros st H; cbn; [exact H|].
  apply IH, perform1_inv, H.
Qed.

Lemma reached_inv host port database secret_key ttl srv hist :
  conn_inv ttl
    (self (perform hist (fresh host port database secret_key ttl srv))).
Proof. apply perform_inv, conn_inv_fresh. Qed.

Lemma conn_inv_uncached (ttl : Z) (c : EdgeDBCloudConn) :
  (ttl <= 0)%Z -> conn_inv ttl c -> _imquery_cache c = None.
Proof.
  intros Hle [_ H]. destruct (Z.ltb_spec 0 ttl); [lia|].
  now destruct (_imquery_cache c).
Qed.

Lemma conn_inv_cached (ttl : Z) (c : EdgeDBCloudConn) :
  (0 < ttl)%Z -> conn_inv ttl c ->
  exists cache, _imquery_cache c = Some cache /\ cache_ttl cache = ttl.
Proof.
  intros Hlt [_ H]. apply Z.ltb_lt in Hlt. rewrite Hlt in H.
  destruct (_imquery_cache c) as [cache|]; [|discriminate].
  exists cache. split; [reflexivity|]. now injection H.
Qed.

(* ================================================================== *)
(** ** Requests that go straight to [_query] *)
(* ================================================================== *)

Lemma direct_query (now : Z) (r : QueryRecord) (st : state) :
  direct r (self st) -> query now r st = _query r st.
Proof.
  intros [H|H]; [now apply query_mutating | now apply query_uncached].
Qed.

Lemma direct_stable (ttl now : Z) (r r' : QueryRecord) (st : state) :
  conn_inv ttl (self st) ->
  direct r (self st) -> direct r (self (snd (query now r' st))).
Proof.
  intros Hinv [H|H]; [now left|]. right.
  destruct (Z.ltb_spec 0 ttl) as [Hlt|Hle].
  - destruct (conn_inv_cached ttl _ Hlt Hinv) as [cache [E _]]. congruence.
  - apply (conn_inv_uncached ttl); [assumption | now apply query_inv].
Qed.

Lemma direct_each (ttl : Z) (r : QueryRecord) (ts : list Z) (st : state) :
  conn_inv ttl (self st) -> direct r (self st) ->
  remote_log (world (snd (query_each (repeat_query r ts) st))) =
    remote_log (world st) ++ repeat (call_of r) (List.length ts) /\
  _dbcalls (self (snd (query_each (repeat_query r ts) st))) =
    (_dbcalls (self st) + Z.of_nat (List.length ts))%Z /\
  _total_dbcalls (self (snd (query_each (repeat_query r ts) st))) =
    _total_dbcalls (self st) /\
  List.length (fst (query_each (repeat_query r ts) st)) = List.length ts.
Proof.
  revert st. induction ts as [|t ts IH]; intros st Hinv Hdir.
  - cbn. rewrite app_nil_r. repeat split; lia.
  - cbn [repeat_query map query_each].
    fold (repeat_query r ts).
    pose proof (query_inv ttl t r st Hinv) as Hinv'.
    pose proof (direct_stable ttl t r r st Hinv Hdir) as Hdir'.
    destruct (query t r st) as [o st1] eqn:Eq.
    cbn [snd] in Hinv', Hdir'.
    specialize (IH st1 Hinv' Hdir').
    destruct (query_each (repeat_query r ts) st1) as [os st2] eqn:Eqs.
    cbn [fst snd] in *.
    rewrite (direct_query t r st Hdir) in Eq.
    destruct st as [c w]. destruct Hinv as [Hok _].
    rewrite (_query_run r c w Hok) in Eq. injection Eq as _ <-.
    destruct (connected_fields (with_dbcalls (_dbcalls c + 1) c))
      as (Hd & Ht & _).
    cbn [self world remote_log] in *.
    destruct IH as (-> & -> & -> & Hlen).
    rewrite Hd, Ht. cbn [List.length repeat].
    rewrite <- app_assoc. cbn [app].
    repeat split; try reflexivity.
    + cbn. lia.
    + now rewrite Hlen.
Qed.

(** C5.  With [ttl <= 0] nothing is cached: on a connection built with
    such a [ttl], whatever was done with it before, the same request
    issued N times one after the other invokes the client N times, once per
    request, and the per-window counter grows by N.  This holds for every
    request, the non-mutating ones included. *)
Theorem ttl_disabled_calls_every_time :
  forall host port database secret_key ttl srv hist r ts,
    (ttl <= 0)%Z ->
    let st := perform hist (fresh host port database secret_key ttl srv) in
    let res := query_each (repeat_query r ts) st in
    remote_log (world (snd res)) =
      remote_log (world st) ++ repeat (call_of r) (List.length ts) /\
    _dbcalls (self (snd res)) = (_dbcalls (self st) + Z.of_nat (List.length ts))%Z /\
    List.length (fst res) = List.length ts.
Proof.
  intros host port database secret_key ttl srv hist r ts Hle st res.
  pose proof (reached_inv host port database secret_key ttl srv hist) as Hinv.
  fold st in Hinv.
  assert (Hdir : direct r (self st))
    by (right; now apply (conn_inv_uncached ttl)).
  destruct (direct_each ttl r ts st Hinv Hdir) as (H1 & H2 & _ & H4).
  now repeat split.
Qed.

(** C6.  A mutating request never meets the cache: for every [ttl],
    positive or not, the same mutating request issued N times invokes the
    client N times. *)
Theorem mutating_bypasses_cache :
  forall host port database secret_key ttl srv hist r ts,
    _is_qry_immutable unicode_fold (qry r) = false ->
    let st := perform hist (fresh host port database secret_key ttl srv) in
    let res := query_each (repeat_query r ts) st in
    remote_log (world (snd res)) =
      remote_log (world st) ++ repeat (call_of r) (List.length ts) /\
    _dbcalls (self (snd res)) = (_dbcalls (self st) + Z.of_nat (List.length ts))%Z /\
    List.length (fst res) = List.length ts.
Proof.
  intros host port database secret_key ttl srv hist r ts Hmut st res.
  pose proof (reached_inv host port database secret_key ttl srv hist) as Hinv.
  fold st in Hinv.
  assert (Hdir : direct r (self st)) by now left.
  destruct (direct_each ttl r ts st Hinv Hdir) as (H1 & H2 & _ & H4).
  now repeat split.
Qed.

(** C10.  With [ttl <= 0] the two paths of [query] are the same function:
    [_imquery] and [_mquery] both are [_query], so for every request
    [query] gives the answer of the server to the one invocation that
    [_query] makes, whichever way the text is classified. *)
Theorem uncached_paths_coincide :
  forall host port database secret_key ttl srv hist now r,
    (ttl <= 0)%Z ->
    let st := perform hist (fresh host port database secret_key ttl srv) in
    let ans := client_method (client_of (self st)) (call_of r)
                             (server (world st)) in
    _imquery r st = _mquery r st /\
    query now r st = _mquery r st /\
    query now r st = _imquery r st /\
    fst (query now r st) = fst ans /\
    server (world (snd (query now r st))) = snd ans /\
    remote_log (world (snd (query now r st))) =
      remote_log (world st) ++ [call_of r].
Proof.
  intros host port database secret_key ttl srv hist now r Hle st ans.
  pose proof (reached_inv host port database secret_key ttl srv hist) as Hinv.
  fold st in Hinv.
  assert (Hq : query now r st = _query r st)
    by (apply query_uncached; now apply (conn_inv_uncached ttl)).
  rewrite Hq. unfold _imquery, _mquery.
  repeat split; try reflexivity;
    subst ans; destruct st as [c w]; destruct Hinv as [Hok _];
    rewrite (_query_run r c w Hok); reflexivity.
Qed.

Lemma make_key_unhashable (r : QueryRecord) :
  (exists v, In v (extra_args r) /\ hashable v = false) \/
  (exists name v, In (name, v) (extra_kwargs r) /\ hashable v = false) ->
  make_key r = None.
Proof.
  intros H. unfold make_key.
  destruct (forallb hashable (extra_args r)) eqn:E1; [|reflexivity].
  destruct (forallb (fun kv => hashable (snd kv)) (extra_kwargs r)) eqn:E2;
    [|reflexivity].
  exfalso. rewrite forallb_forall in E1, E2.
  destruct H as [[v [Hin Hv]] | [name [v [Hin Hv]]]].
  - rewrite (E1 v Hin) in Hv. discriminate.
  - specialize (E2 (name, v) Hin). cbn in E2. congruence.
Qed.

(** C9.  On a caching connection ([ttl > 0]) a non-mutating request with
    an argument that cannot be hashed has no cache key: [query] raises
    CacheKeyError to its caller and leaves the connection and the server
    as they were; the client is not invoked. *)
Theorem unhashable_request_raises :
  forall host port database secret_key ttl srv hist now r,
    (0 < ttl)%Z ->
    _is_qry_immutable unicode_fold (qry r) = true ->
    (exists v, In v (extra_args r) /\ hashable v = false) \/
    (exists name v, In (name, v) (extra_kwargs r) /\ hashable v = false) ->
    let st := perform hist (fresh host port database secret_key ttl srv) in
    query now r st = (Raise CacheKeyError, st).
Proof.
  intros host port database secret_key ttl srv hist now r Hlt Him Hun st.
  pose proof (reached_inv host port database secret_key ttl srv hist) as Hinv.
  fold st in Hinv.
  destruct (conn_inv_cached ttl _ Hlt Hinv) as [cache [Hc _]].
  apply query_no_key; [assumption | congruence | now apply make_key_unhashable].
Qed.

(* ================================================================== *)
(** ** The cached path, request after request *)
(* ================================================================== *)

Lemma hits_each (r : QueryRecord) (k : CacheKey) (v : QueryResult)
                (ts : list Z) (st : state) :
  _is_qry_immutable unicode_fold (qry r) = true ->
  make_key r = Some k ->
  Forall (fun t => cached_value (self st) k t = Some v) ts ->
  query_each (repeat_query r ts) st = (repeat (Ok v) (List.length ts), st).
Proof.
  intros Him Hk. induction 1 as [|t ts Ht _ IH]; [reflexivity|].
  cbn [repeat_query map query_each]. fold (repeat_query r ts).
  rewrite (query_hit t r st k v Him Hk Ht), IH. reflexivity.
Qed.

(** C4.  On a caching connection ([ttl = T > 0]), when no valid entry
    stands for the key of a non-mutating request, what the repetitions do
    depends on the first execution.  When it returns a value [v], the
    request issued N+1 times, every time within T of the first, invokes
    the client exactly once; the per-window counter grows by 1, and every
    repetition returns the stored [v].  When it raises, the exception
    reaches the caller, the invocation is counted and nothing is stored:
    no entry stands for the key at any time, and a second request,
    however soon, invokes the client again and is counted again. *)
Theorem cached_repeats_call_once :
  forall host port database secret_key ttl srv hist r k t1,
    (0 < ttl)%Z ->
    _is_qry_immutable unicode_fold (qry r) = true ->
    make_key r = Some k ->
    let st := perform hist (fresh host port database secret_key ttl srv) in
    cached_value (self st) k t1 = None ->
    let answer :=
      fst (client_method (client_of (self st)) (call_of r) (server (world st))) in
    (forall v ts,
        answer = Ok v ->
        Forall (fun t => (t - t1 < ttl)%Z) ts ->
        let res := query_each (repeat_query r (t1 :: ts)) st in
        fst res = repeat (Ok v) (S (List.length ts)) /\
        remote_log (world (snd res)) = remote_log (world st) ++ [call_of r] /\
        _dbcalls (self (snd res)) = (_dbcalls (self st) + 1)%Z) /\
    (forall e,
        answer = Raise e ->
        let first := query t1 r st in
        fst first = Raise e /\
        remote_log (world (snd first)) = remote_log (world st) ++ [call_of r] /\
        _dbcalls (self (snd first)) = (_dbcalls (self st) + 1)%Z /\
        (forall t, cached_value (self (snd first)) k t = None) /\
        (forall t2,
            let res := query_each (repeat_query r [t1; t2]) st in
            remote_log (world (snd res))
              = remote_log (world st) ++ [call_of r; call_of r] /\
            _dbcalls (self (snd res)) = (_dbcalls (self st) + 2)%Z)).
Proof.
  intros host port database secret_key ttl srv hist r k t1
         Hlt Him Hk st Hnone answer.
  pose proof (reached_inv host port database secret_key ttl srv hist) as Hinv.
  fold st in Hinv.
  destruct (conn_inv_cached ttl _ Hlt Hinv) as [cache [Hc Httl]].
  destruct Hinv as [Hok _].
  subst answer. destruct st as [c w]. cbn [self world] in *.
  destruct (query_miss t1 r c w k cache Him Hk Hok Hc Hnone)
    as (c' & Hq & Hd & _ & _ & _ & Hok' & Hc' & Hstored & Hfailed).
  split.
  - intros v ts Hans Hts.
    cbn [repeat_query map query_each]. fold (repeat_query r ts).
    rewrite Hq, Hans.
    rewrite (hits_each r k v ts _ Him Hk).
    + cbn [fst snd self world remote_log repeat].
      split; [reflexivity | split; [reflexivity | exact Hd]].
    + cbn [self]. rewrite Forall_forall in *. intros t Ht.
      apply (Hstored v Hans). rewrite Httl. now apply Hts.
  - intros e Hans. rewrite Hq, Hans.
    cbn [fst snd self world remote_log].
    split; [reflexivity|]. split; [reflexivity|]. split; [exact Hd|].
    split; [exact (Hfailed e Hans)|].
    intros t2.
    cbn [repeat_query map query_each]. rewrite Hq.
    destruct (_imquery_cache c') as [cache'|] eqn:Hcache'; [|discriminate].
    set (w' := {| server := snd (client_method (client_of c) (call_of r) (server w));
                  remote_log := remote_log w ++ [call_of r] |}).
    destruct (query_miss t2 r c' w' k cache' Him Hk Hok' Hcache'
                (Hfailed e Hans t2))
      as (c'' & Hq2 & Hd2 & _).
    rewrite Hq2. cbn [fst snd self world remote_log w'].
    split; [now rewrite <- app_assoc | lia].
Qed.

(* ================================================================== *)
(** ** The counters *)
(* ================================================================== *)

(** Each request adds to the per-window counter what it adds to the
    invocations of the client, and leaves the cumulative total alone. *)
Lemma query_counts (ttl now : Z) (r : QueryRecord) (st : state) :
  conn_inv ttl (self st) ->
  (_dbcalls (self (snd (query now r st))) - _dbcalls (self st) =
   remote_calls (snd (query now r st)) - remote_calls st)%Z /\
  _total_dbcalls (self (snd (query now r st))) = _total_dbcalls (self st).
Proof.
  intros [Hok Httl]. destruct st as [c w]. cbn [self] in *.
  unfold remote_calls.
  assert (Hdirect :
    query now r {| self := c; world := w |} = _query r {| self := c; world := w |} ->
    (_dbcalls (self (snd (query now r {| self := c; world := w |}))) - _dbcalls c =
     Z.of_nat (List.length (remote_log (world (snd (query now r {| self := c; world := w |})))))
     - Z.of_nat (List.length (remote_log w)))%Z /\
    _total_dbcalls (self (snd (query now r {| self := c; world := w |}))) =
      _total_dbcalls c).
  { intros ->. rewrite (_query_run r c w Hok). cbn [snd self world remote_log].
    destruct (connected_fields (with_dbcalls (_dbcalls c + 1) c))
      as (Hd & Ht & _).
    rewrite Hd, Ht, length_app. cbn. split; [lia | reflexivity]. }
  destruct (_is_qry_immutable unicode_fold (qry r)) eqn:Him;
    [|apply Hdirect; now apply query_mutating].
  destruct (_imquery_cache c) as [cache|] eqn:Hc;
    [|apply Hdirect; now apply query_uncached].
  destruct (make_key r) as [k|] eqn:Hk.
  - destruct (cached_value c k now) as [v|] eqn:Hv.
    + rewrite (query_hit now r {| self := c; world := w |} k v Him Hk Hv).
      cbn. split; [lia | reflexivity].
    + destruct (query_miss now r c w k cache Him Hk Hok Hc Hv)
        as (c' & -> & Hd & Ht & _).
      cbn [snd self world remote_log]. rewrite Hd, Ht, length_app. cbn.
      split; [lia | reflexivity].
  - rewrite (query_no_key now r {| self := c; world := w |} Him); cbn;
      [split; [lia | reflexivity] | now rewrite Hc | assumption].
Qed.

Lemma query_each_counts (ttl : Z) (reqs : list (Z * QueryRecord)) (st : state) :
  conn_inv ttl (self st) ->
  conn_inv ttl (self (snd (query_each reqs st))) /\
  (_dbcalls (self (snd (query_each reqs st))) - _dbcalls (self st) =
   remote_calls (snd (query_each reqs st)) - remote_calls st)%Z /\
  _total_dbcalls (self (snd (query_each reqs st))) = _total_dbcalls (self st).
Proof.
  revert st. induction reqs as [|[now r] reqs IH]; intros st Hinv.
  - cbn. split; [exact Hinv | split; [lia | reflexivity]].
  - cbn [query_each].
    pose proof (query_inv ttl now r st Hinv) as Hinv'.
    pose proof (query_counts ttl now r st Hinv) as [Hd Ht].
    destruct (query now r st) as [o st1]. cbn [snd] in *.
    specialize (IH st1 Hinv'). destruct IH as (Hinv2 & Hd2 & Ht2).
    destruct (query_each reqs st1) as [os st2]. cbn [snd] in *.
    split; [exact Hinv2 | split; [lia | congruence]].
Qed.

(** The state that the bookkeeping of [__aexit__] leaves. *)
Lemma __aexit___sleep (exc : option exn) (sleep : M unit) (now : Z) (st : state) :
  __aexit__ exc sleep now st =
  match sleep st with
  | (Ok _, st') =>
      (Ok PyNone,
       {| self := with_start 0
                    (with_dbcalls 0
                       (with_total_dbcalls
                          (_total_dbcalls (self st') + _dbcalls (self st'))
                          (self st')));
          world := world st' |})
  | (Raise e, st') => (Raise e, st')
  end.
Proof.
  unfold __aexit__. unfold bind at 1.
  destruct (sleep st) as [[u|e] st']; reflexivity.
Qed.

Lemma __aexit___run (exc : option exn) (now : Z) (st : state) :
  __aexit__ exc slept now st =
  (Ok PyNone,
   {| self := with_start 0
                (with_dbcalls 0
                   (with_total_dbcalls
                      (_total_dbcalls (self st) + _dbcalls (self st)) (self st)));
      world := world st |}).
Proof. reflexivity. Qed.

Lemma __aexit___cancelled (exc : option exn) (now : Z) (st : state) :
  __aexit__ exc cancelled now st = (Raise CancelledError, st).
Proof. reflexivity. Qed.

Lemma async_with_sleep (A : Type) (body : M A) (t_in t_out : Z)
                       (sleep : M unit) (st : state) :
  let inside := body (snd (__aenter__ t_in st)) in
  async_with t_in sleep t_out body st =
  match sleep (snd inside) with
  | (Ok _, st') =>
      (match fst inside with
       | Ok a => Ok (Some a)
       | Raise e => Raise e
       end,
       snd (__aexit__ (exc_of (fst inside)) slept t_out st'))
  | (Raise e', st') => (Raise e', st')
  end.
Proof.
  intros inside. subst inside. unfold async_with.
  destruct (__aenter__ t_in st) as [u st1]. cbn [snd].
  destruct (body st1) as [o st2]. cbn [fst snd].
  rewrite __aexit___sleep.
  destruct (sleep st2) as [[u'|e'] st']; [|reflexivity].
  rewrite __aexit___run. now destruct o.
Qed.

Lemma async_with_run (A : Type) (body : M A) (t_in t_out : Z) (st : state) :
  async_with t_in slept t_out body st =
  (match fst (body (snd (__aenter__ t_in st))) with
   | Ok a => Ok (Some a)
   | Raise e => Raise e
   end,
   snd (__aexit__ (exc_of (fst (body (snd (__aenter__ t_in st))))) slept t_out
                  (snd (body (snd (__aenter__ t_in st)))))).
Proof. exact (async_with_sleep A body t_in t_out slept st). Qed.

Lemma window_counts (ttl : Z) (reqs : list (Z * QueryRecord))
                    (failure : option exn) (t_in t_out : Z) (st : state) :
  conn_inv ttl (self st) ->
  let st' := snd (async_with t_in slept t_out (window_body reqs failure) st) in
  conn_inv ttl (self st') /\
  _total_dbcalls (self st') =
    (_total_dbcalls (self st) + _dbcalls (self st)
     + (remote_calls st' - remote_calls st))%Z /\
  _dbcalls (self st') = 0%Z.
Proof.
  intros Hinv st'. subst st'. rewrite async_with_run. cbn [snd].
  rewrite __aexit___run. cbn [self world].
  set (st1 := snd (__aenter__ t_in st)).
  assert (Hinv1 : conn_inv ttl (self st1)) by exact Hinv.
  destruct (query_each_counts ttl reqs st1 Hinv1) as (Hinv2 & Hd & Ht).
  unfold window_body.
  destruct (query_each reqs st1) as [os st2]. cbn [snd] in *.
  split; [exact Hinv2 | split; [|reflexivity]].
  unfold remote_calls in *.
  cbn [self world _total_dbcalls with_start with_dbcalls with_total_dbcalls].
  change (remote_log (world st1)) with (remote_log (world st)) in Hd.
  change (_dbcalls (self st1)) with (_dbcalls (self st)) in Hd.
  change (_total_dbcalls (self st1)) with (_total_dbcalls (self st)) in Ht.
  lia.
Qed.

(** C7.  [__aexit__] awaits a sleep before its bookkeeping.  Whenever the
    sleep returns, the window left normally or by an exception,
    [__aexit__] adds the per-window count, as it stands then, to the
    cumulative total, sets the per-window count to zero and returns
    [None], so that [async with] lets the exception of its body go on to
    the caller.  When the [await] raises instead, as it does when the
    task is cancelled there, [__aexit__] ends with that exception and
    the counters are left as they were; it takes the place of the
    exception of the body.  With exits that are not disturbed, a window
    in which the client was invoked k times raises the total by k (and by
    what was counted before the window and not yet added), and a
    following window with m invocations brings it to k + m; on a new
    connection the total is k after the first window and k + m after the
    second. *)
Theorem session_exit_accounting :
  (forall exc sleep now st st',
      sleep st = (Ok tt, st') ->
      fst (__aexit__ exc sleep now st) = Ok PyNone /\
      _total_dbcalls (self (snd (__aexit__ exc sleep now st))) =
        (_total_dbcalls (self st') + _dbcalls (self st'))%Z /\
      _dbcalls (self (snd (__aexit__ exc sleep now st))) = 0%Z /\
      world (snd (__aexit__ exc sleep now st)) = world st') /\
  (forall exc sleep now st e st',
      sleep st = (Raise e, st') ->
      __aexit__ exc sleep now st = (Raise e, st')) /\
  (forall (A : Type) (body : M A) t_in sleep t_out st st',
      let inside := body (snd (__aenter__ t_in st)) in
      sleep (snd inside) = (Ok tt, st') ->
      let res := async_with t_in sleep t_out body st in
      fst res = match fst inside with
                | Ok a => Ok (Some a)
                | Raise e => Raise e
                end /\
      _total_dbcalls (self (snd res)) =
        (_total_dbcalls (self st') + _dbcalls (self st'))%Z /\
      _dbcalls (self (snd res)) = 0%Z) /\
  (forall (A : Type) (body : M A) t_in sleep t_out st e st',
      sleep (snd (body (snd (__aenter__ t_in st)))) = (Raise e, st') ->
      async_with t_in sleep t_out body st = (Raise e, st')) /\
  (forall host port database secret_key ttl srv hist
          reqs1 failure1 t1 t2 reqs2 failure2 t3 t4,
      let st := perform hist (fresh host port database secret_key ttl srv) in
      let st1 := snd (async_with t1 slept t2 (window_body reqs1 failure1) st) in
      let st2 := snd (async_with t3 slept t4 (window_body reqs2 failure2) st1) in
      let k := (remote_calls st1 - remote_calls st)%Z in
      let m := (remote_calls st2 - remote_calls st1)%Z in
      _total_dbcalls (self st1) =
        (_total_dbcalls (self st) + _dbcalls (self st) + k)%Z /\
      _dbcalls (self st1) = 0%Z /\
      _total_dbcalls (self st2) =
        (_total_dbcalls (self st) + _dbcalls (self st) + k + m)%Z /\
      _dbcalls (self st2) = 0%Z) /\
  (forall host port database secret_key ttl srv
          reqs1 failure1 t1 t2 reqs2 failure2 t3 t4,
      let st := fresh host port database secret_key ttl srv in
      let st1 := snd (async_with t1 slept t2 (window_body reqs1 failure1) st) in
      let st2 := snd (async_with t3 slept t4 (window_body reqs2 failure2) st1) in
      let k := remote_calls st1 in
      let m := (remote_calls st2 - remote_calls st1)%Z in
      _total_dbcalls (self st1) = k /\
      _total_dbcalls (self st2) = (k + m)%Z).
Proof.
  assert (Htwo : forall host port database secret_key ttl srv hist
          reqs1 failure1 t1 t2 reqs2 failure2 t3 t4,
      let st := perform hist (fresh host port database secret_key ttl srv) in
      let st1 := snd (async_with t1 slept t2 (window_body reqs1 failure1) st) in
      let st2 := snd (async_with t3 slept t4 (window_body reqs2 failure2) st1) in
      let k := (remote_calls st1 - remote_calls st)%Z in
      let m := (remote_calls st2 - remote_calls st1)%Z in
      _total_dbcalls (self st1) =
        (_total_dbcalls (self st) + _dbcalls (self st) + k)%Z /\
      _dbcalls (self st1) = 0%Z /\
      _total_dbcalls (self st2) =
        (_total_dbcalls (self st) + _dbcalls (self st) + k + m)%Z /\
      _dbcalls (self st2) = 0%Z).
  { intros host port database secret_key ttl srv hist
           reqs1 failure1 t1 t2 reqs2 failure2 t3 t4 st st1 st2 k m.
    pose proof (reached_inv host port database secret_key ttl srv hist) as Hinv.
    fold st in Hinv.
    destruct (window_counts ttl reqs1 failure1 t1 t2 st Hinv) as (Hinv1 & Ht1 & Hd1).
    fold st1 in Hinv1, Ht1, Hd1.
    destruct (window_counts ttl reqs2 failure2 t3 t4 st1 Hinv1) as (_ & Ht2 & Hd2).
    fold st2 in Ht2, Hd2.
    subst k m. repeat split; try assumption. lia. }
  split; [|split; [|split; [|split; [|split; [exact Htwo|]]]]].
  - intros exc sleep now st st' Hs. rewrite __aexit___sleep, Hs. cbn. auto.
  - intros exc sleep now st e st' Hs. now rewrite __aexit___sleep, Hs.
  - intros A body t_in sleep t_out st st' inside Hs res. subst res.
    rewrite async_with_sleep. fold inside. rewrite Hs. cbn [fst snd].
    rewrite __aexit___run. cbn. auto.
  - intros A body t_in sleep t_out st e st' Hs.
    rewrite async_with_sleep. cbn zeta. now rewrite Hs.
  - intros host port database secret_key ttl srv
           reqs1 failure1 t1 t2 reqs2 failure2 t3 t4 st st1 st2 k m.
    subst k m.
    destruct (Htwo host port database secret_key ttl srv []
                   reqs1 failure1 t1 t2 reqs2 failure2 t3 t4)
      as (H1 & _ & H2 & _).
    cbn [perform fold_left] in H1, H2. fold st in H1, H2.
    fold st1 in H1, H2. fold st2 in H2.
    change (_total_dbcalls (self st)) with 0%Z in H1, H2.
    change (_dbcalls (self st)) with 0%Z in H1, H2.
    change (remote_calls st) with 0%Z in H1, H2.
    repeat split; lia.
Qed.

(** C8, as the code has it.  The health probe is one GET of
    [https://{host}:{port}/server/status/alive], redirects followed,
    certificates not verified, 30 seconds at most.  Its answer decides:
    a response gives [status == 200]; a failure of the transport, as any
    exception of the httpx.HTTPError family, gives [False] and is not
    raised; [True] comes only from status 200.  The property raises
    exactly what [httpx.get] raises outside that family: such an
    exception is not caught and reaches the caller, and nothing else
    does. *)
Theorem health_check_false_on_failure :
  forall c : EdgeDBCloudConn,
    let probe :=
      {| url := ("https://" ++ _host c ++ ":" ++ str_of_int (_port c)
                   ++ "/server/status/alive")%string;
         follow_redirects := true; verify := false; timeout := 30 |} in
    (forall status,
        httpx_get probe = Response status ->
        is_healthy c = Ok (status =? 200)%Z) /\
    (forall why,
        httpx_get probe = HttpxRaises (TransportError why) ->
        is_healthy c = Ok false) /\
    (forall e,
        httpx_get probe = HttpxRaises e -> isinstance_HTTPError e = true ->
        is_healthy c = Ok false) /\
    (is_healthy c = Ok true <-> httpx_get probe = Response 200%Z) /\
    (forall x,
        is_healthy c = Raise x ->
        exists e, httpx_get probe = HttpxRaises e /\
                  isinstance_HTTPError e = false) /\
    (forall e,
        httpx_get probe = HttpxRaises e -> isinstance_HTTPError e = false ->
        is_healthy c = Raise (HttpxException e)).
Proof.
  intros c probe. unfold is_healthy, _healthy_check_url. fold probe.
  split; [|split; [|split; [|split; [|split]]]].
  - intros status ->. reflexivity.
  - intros why ->. reflexivity.
  - intros e -> ->. reflexivity.
  - split.
    + destruct (httpx_get probe) as [status|e].
      * intros H. injection H as H. apply Z.eqb_eq in H. now subst.
      * destruct (isinstance_HTTPError e); discriminate.
    + intros ->. reflexivity.
  - intros x. destruct (httpx_get probe) as [status|e]; [discriminate|].
    destruct (isinstance_HTTPError e) eqn:E; [discriminate|].
    intros _. now exists e.
  - intros e -> ->. reflexivity.
Qed.

(* ================================================================== *)
(** ** Requests in flight together: one execution per key *)
(* ================================================================== *)

Lemma _query_issue_run (r : QueryRecord) (c : EdgeDBCloudConn) (w : World) :
  credentials_ok c = true ->
  _query_issue r {| self := c; world := w |} =
  (Ok (client_of c, call_of r),
   {| self := connected (with_dbcalls (_dbcalls c + 1) c);
      world := {| server := server w;
                  remote_log := remote_log w ++ [call_of r] |} |}).
Proof.
  intros Hok.
  unfold _query_issue, client, issue_call, connected, client_of, call_of,
    credentials_ok in *.
  unfold_monad. cbn.
  destruct (_client c) as [cl|] eqn:Ecl; cbn.
  - destruct (jsonify r), (required_single r); reflexivity.
  - destruct (_secret_key c) as [k|] eqn:Ek; [|discriminate]. cbn.
    destruct (jsonify r), (required_single r); reflexivity.
Qed.

(** [_query] is its part before the await followed by the answer of the
    server. *)
Lemma _query_split (r : QueryRecord) (st : state) :
  _query r st = (x <- _query_issue r ;; answer_call (fst x) (snd x)) st.
Proof.
  destruct st as [c w].
  unfold _query, _query_issue, _get_client_qry_func, call_client, client.
  unfold_monad. cbn.
  destruct (_client c) as [cl|]; [|destruct (_secret_key c) as [key|]];
    cbn; try reflexivity;
    destruct (jsonify r), (required_single r); reflexivity.
Qed.

Lemma run_app (s1 s2 : list event) (m : tasks) :
  run (s1 ++ s2) m =
  match run s1 m with
  | Some m' => run s2 m'
  | None => None
  end.
Proof.
  revert m. induction s1 as [|e s1 IH]; intros m; cbn; [reflexivity|].
  destruct (step e m); [apply IH | reflexivity].
Qed.

Lemma make_key_some (r : QueryRecord) (k : CacheKey) :
  make_key r = Some k -> k = key_of r.
Proof.
  unfold make_key.
  destruct (forallb hashable (extra_args r)
            && forallb (fun kv => hashable (snd kv)) (extra_kwargs r));
    [intros H; now injection H | discriminate].
Qed.

(** Requests of one key make the same invocation. *)
Lemma same_key_same_call (r r' : QueryRecord) (k : CacheKey) :
  make_key r = Some k -> make_key r' = Some k -> call_of r = call_of r'.
Proof.
  intros H H'. apply make_key_some in H, H'. subst k.
  unfold call_of. unfold key_of in H'.
  injection H' as -> -> -> -> ->. reflexivity.
Qed.

(** While the execution for a key lasts, every arrival for that key
    joins its waiters and nothing else happens. *)
Lemma join_all (k : CacheKey) (who : list arrival) :
  _is_qry_immutable unicode_fold (key_qry k) = true ->
  Forall (fun a => make_key (arr_request a) = Some k) who ->
  forall (st : state) (fl : flight) dc dl,
    _imquery_cache (self st) <> None ->
    run (arrivals who)
        {| conn := st; flights := [(k, fl)];
           direct_calls := dc; delivered := dl |} =
    Some {| conn := st;
            flights := [(k, {| fl_request := fl_request fl;
                               fl_waiters := fl_waiters fl ++ map arr_task who;
                               fl_call := fl_call fl |})];
            direct_calls := dc; delivered := dl |}.
Proof.
  intros Him.
  induction 1 as [|[t now r] who Hk _ IH]; intros st fl dc dl Hc.
  - cbn. rewrite app_nil_r. now destruct fl.
  - cbn [arr_request] in Hk.
    cbn [arrivals map run step conn arr_task arr_time arr_request].
    replace (qry r) with (key_qry k)
      by (now rewrite (make_key_some r k Hk)).
    rewrite Him.
    destruct (_imquery_cache (self st)) as [cache|] eqn:Ec; [|now elim Hc].
    unfold arrive_cached. rewrite Hk. cbn [flights flight_get conn].
    destruct (CacheKey_eq_dec k k) as [_|N]; [|now elim N].
    unfold flight_put. cbn [flight_del direct_calls delivered].
    destruct (CacheKey_eq_dec k k) as [_|N]; [|now elim N].
    fold (arrivals who). rewrite IH by congruence.
    cbn [fl_request fl_waiters fl_call]. now rewrite <- app_assoc.
Qed.

(** C1.  On a caching connection ([ttl > 0]) with no valid entry for a
    key, let any number of tasks issue non-mutating requests of that key
    before the execution started by the first of them has its answer,
    some before that execution reaches the server and some after.  Then
    the client is invoked exactly once, the counter grows by 1, and every
    task receives the outcome of that one invocation, value or failure. *)
Theorem single_flight :
  forall host port database secret_key ttl srv hist k
         (first : arrival) (before after : list arrival) t_done,
    (0 < ttl)%Z ->
    _is_qry_immutable unicode_fold (key_qry k) = true ->
    Forall (fun a => make_key (arr_request a) = Some k)
           (first :: before ++ after) ->
    let st := perform hist (fresh host port database secret_key ttl srv) in
    cached_value (self st) k (arr_time first) = None ->
    let sched := arrivals (first :: before) ++ [Run k]
                   ++ arrivals after ++ [Complete k t_done] in
    let o := fst (client_method (client_of (self st))
                                (call_of (arr_request first))
                                (server (world st))) in
    exists m,
      run sched (idle st) = Some m /\
      remote_log (world (conn m)) =
        remote_log (world st) ++ [call_of (arr_request first)] /\
      _dbcalls (self (conn m)) = (_dbcalls (self st) + 1)%Z /\
      delivered m = hand_out (map arr_task (first :: before ++ after)) o /\
      flights m = [] /\
      direct_calls m = [].
Proof.
  intros host port database secret_key ttl srv hist k
         [first t1 r] before after t_done Hlt Him Hkeys st Hnone sched o.
  cbn [arr_task arr_time arr_request] in *.
  inversion Hkeys as [|? ? Hk Hrest]; subst.
  cbn [arr_request] in Hk.
  apply Forall_app in Hrest as [Hbefore Hafter].
  assert (Himr : _is_qry_immutable unicode_fold (qry r) = true)
    by (now rewrite (make_key_some r k Hk) in Him).
  pose proof (reached_inv host port database secret_key ttl srv hist) as Hinv.
  fold st in Hinv.
  destruct (conn_inv_cached ttl _ Hlt Hinv) as [cache [Hc Httl]].
  destruct Hinv as [Hok _].
  subst sched o. destruct st as [c w]. cbn [self world] in *.
  set (c1 := with_imquery_cache
               (Some {| cache_ttl := cache_ttl cache;
                        entries := cache_del k (entries cache) |}) c).
  (* the first arrival starts the execution *)
  unfold idle.
  cbn [arrivals map app run step conn self arr_task arr_time arr_request].
  rewrite Himr, Hc.
  unfold arrive_cached. rewrite Hk.
  cbn [flights flight_get conn self]. rewrite Hnone.
  replace (snd (update_cache (cache_del k) {| self := c; world := w |}))
    with {| self := c1; world := w |}
    by (unfold update_cache; unfold_monad; cbn [self]; now rewrite Hc).
  unfold flight_put. cbn [flight_del direct_calls delivered].
  (* the arrivals before the execution runs *)
  fold (arrivals before). rewrite run_app.
  rewrite (join_all k before Him Hbefore) by discriminate.
  cbn [fl_request fl_waiters fl_call app].
  (* the execution reaches the server *)
  cbn [run step flights flight_get conn].
  destruct (CacheKey_eq_dec k k) as [_|N]; [|now elim N].
  rewrite (_query_issue_run r c1 w Hok).
  unfold flight_put. cbn [flight_del direct_calls delivered].
  destruct (CacheKey_eq_dec k k) as [_|N]; [|now elim N].
  (* the arrivals while the server works *)
  rewrite run_app.
  destruct (connected_fields (with_dbcalls (_dbcalls c1 + 1) c1))
    as (Hd & _ & Hca & _ & _ & _).
  set (c2 := connected (with_dbcalls (_dbcalls c1 + 1) c1)) in *.
  change (_dbcalls c2 = (_dbcalls c + 1)%Z) in Hd.
  change (_imquery_cache c2 =
          Some {| cache_ttl := cache_ttl cache;
                  entries := cache_del k (entries cache) |}) in Hca.
  rewrite (join_all k after Him Hafter)
    by (cbn [self]; rewrite Hca; discriminate).
  cbn [fl_request fl_waiters fl_call app].
  (* the answer *)
  cbn [run step flights flight_get conn].
  destruct (CacheKey_eq_dec k k) as [_|N]; [|now elim N].
  unfold answer_call. cbn [self world server remote_log].
  change (client_of c1) with (client_of c).
  rewrite map_app.
  destruct (client_method (client_of c) (call_of r) (server w)) as [[v|e] srv'];
    cbn [fst flight_del];
    (destruct (CacheKey_eq_dec k k) as [_|N]; [|now elim N]).
  - eexists. split; [reflexivity|].
    cbn [conn delivered flights direct_calls app].
    unfold update_cache. unfold_monad. cbn [self world].
    rewrite Hca. cbn [snd self world remote_log _dbcalls with_imquery_cache].
    rewrite Hd. repeat split.
  - eexists. split; [reflexivity|].
    cbn [conn delivered flights direct_calls app self world remote_log].
    rewrite Hd. repeat split.
Qed.

(** A request awaited with no other task around: the events of its
    schedule leave the connection and the world as [query] does, and hand
    its task what [query] returns. *)
Lemma awaited_alone (ttl : Z) (task : nat) (now : Z) (r : QueryRecord)
                    (st : state) :
  conn_inv ttl (self st) ->
  run (schedule_of (self st) task now r) (idle st) =
  Some {| conn := snd (query now r st);
          flights := [];
          direct_calls := [];
          delivered := [(task, fst (query now r st))] |}.
Proof.
  intros [Hok _]. destruct st as [c w]. cbn [self] in *.
  assert (Hdirect :
    query now r {| self := c; world := w |} = _query r {| self := c; world := w |} ->
    step (Arrive task now r) (idle {| self := c; world := w |}) =
      Some (arrive_direct task r (idle {| self := c; world := w |})) ->
    run [Arrive task now r; CompleteDirect task] (idle {| self := c; world := w |}) =
    Some {| conn := snd (query now r {| self := c; world := w |});
            flights := [];
            direct_calls := [];
            delivered := [(task, fst (query now r {| self := c; world := w |}))] |}).
  { intros -> Hstep. cbn [run]. rewrite Hstep.
    unfold arrive_direct, idle. cbn [conn].
    rewrite (_query_issue_run r c w Hok), (_query_run r c w Hok).
    cbn [step direct_calls app direct_get flights delivered conn].
    rewrite Nat.eqb_refl. unfold answer_call.
    cbn [self world server remote_log].
    destruct (client_method (client_of c) (call_of r) (server w)) as [o srv'].
    cbn [direct_del]. rewrite Nat.eqb_refl. reflexivity. }
  unfold schedule_of.
  destruct (_is_qry_immutable unicode_fold (qry r)) eqn:Him.
  2:{ apply Hdirect; [now apply query_mutating|]. cbn [step]. now rewrite Him. }
  destruct (_imquery_cache c) as [cache|] eqn:Hc.
  2:{ apply Hdirect; [now apply query_uncached|].
      cbn [step idle conn self]. now rewrite Him, Hc. }
  destruct (make_key r) as [k|] eqn:Hk.
  - destruct (cached_value c k now) as [v|] eqn:Hv.
    + rewrite (query_hit now r {| self := c; world := w |} k v Him Hk Hv).
      unfold idle. cbn [run step conn self]. rewrite Him, Hc.
      unfold arrive_cached. rewrite Hk.
      cbn [flights flight_get conn self]. now rewrite Hv.
    + rewrite (query_miss_run now r c w k cache Him Hk Hok Hc Hv).
      unfold idle. cbn [run step conn self]. rewrite Him, Hc.
      unfold arrive_cached. rewrite Hk.
      cbn [flights flight_get conn self]. rewrite Hv.
      replace (snd (update_cache (cache_del k) {| self := c; world := w |}))
        with {| self := with_imquery_cache
                          (Some {| cache_ttl := cache_ttl cache;
                                   entries := cache_del k (entries cache) |}) c;
                world := w |}
        by (unfold update_cache; unfold_monad; cbn [self]; now rewrite Hc).
      unfold flight_put.
      cbn [flight_del flight_get direct_calls delivered flights conn].
      destruct (CacheKey_eq_dec k k) as [_|N]; [|now elim N].
      rewrite _query_issue_run by exact Hok.
      cbn [flight_del flight_get direct_calls delivered flights conn].
      repeat (destruct (CacheKey_eq_dec k k) as [_|N]; [|now elim N]).
      unfold answer_call. cbn [self world server remote_log].
      fold (after_miss k cache c).
      change (client_of
                (with_imquery_cache
                   (Some {| cache_ttl := cache_ttl cache;
                            entries := cache_del k (entries cache) |}) c))
        with (client_of c).
      assert (Hca : _imquery_cache (after_miss k cache c) =
                    Some {| cache_ttl := cache_ttl cache;
                            entries := cache_del k (entries cache) |}).
      { unfold after_miss.
        match goal with
        | |- _imquery_cache (connected ?x) = _ =>
            destruct (connected_fields x) as (_ & _ & H & _); exact H
        end. }
      destruct (client_method (client_of c) (call_of r) (server w))
        as [[v|e] srv']; cbn [fst snd flight_del];
        (destruct (CacheKey_eq_dec k k) as [_|N]; [|now elim N]).
      * unfold update_cache. unfold_monad. cbn [self world].
        rewrite Hca. reflexivity.
      * reflexivity.
  - rewrite (query_no_key now r {| self := c; world := w |} Him);
      [|cbn; now rewrite Hc | assumption].
    unfold idle. cbn [run step conn self]. rewrite Him, Hc.
    unfold arrive_cached. now rewrite Hk.
Qed.

(* ================================================================== *)
(** ** The client, the log and the counters along a history *)
(* ================================================================== *)

Lemma born_of_fresh host port database secret_key ttl srv :
  born_of host port database secret_key
          (self (fresh host port database secret_key ttl srv)).
Proof. unfold born_of. cbn. auto 6. Qed.

Lemma born_of_credentials host port database secret_key c :
  born_of host port database secret_key c -> credentials_ok c = true.
Proof.
  intros (_ & _ & _ & [[H1 H2] | [H1 H2]]); unfold credentials_ok;
    rewrite H1, ?H2; reflexivity.
Qed.

Lemma born_of_connected host port database secret_key c :
  born_of host port database secret_key c ->
  born_of host port database secret_key (connected c) /\
  _client (connected c) = Some (create_async_client host port database secret_key) /\
  _secret_key (connected c) = None.
Proof.
  unfold born_of, connected, client_of.
  destruct c as [h p d k cl s n t ca]. cbn.
  intros (-> & -> & -> & [[-> ->] | [-> ->]]); cbn; auto 8.
Qed.

(** What a request can do to the attributes that make the client: nothing,
    or what asking for the client does. *)
Lemma query_identity (now : Z) (r : QueryRecord) (c : EdgeDBCloudConn) (w : World) :
  credentials_ok c = true ->
  let c' := self (snd (query now r {| self := c; world := w |})) in
  _host c' = _host c /\ _port c' = _port c /\ _database c' = _database c /\
  ((_client c' = _client c /\ _secret_key c' = _secret_key c /\
    remote_log (world (snd (query now r {| self := c; world := w |})))
      = remote_log w) \/
   (_client c' = _client (connected c) /\
    _secret_key c' = _secret_key (connected c) /\
    remote_log (world (snd (query now r {| self := c; world := w |})))
      = remote_log w ++ [call_of r])).
Proof.
  intros Hok c'. subst c'.
  assert (Hconn : forall n k,
    let c1 := connected (with_dbcalls n (with_imquery_cache k c)) in
    _host c1 = _host c /\ _port c1 = _port c /\ _database c1 = _database c /\
    _client c1 = _client (connected c) /\
    _secret_key c1 = _secret_key (connected c)).
  { intros n k. unfold connected, client_of.
    destruct c as [h p d key cl s dn t ca]. cbn. destruct cl; cbn; auto. }
  assert (Hconn0 : forall n,
    let c1 := connected (with_dbcalls n c) in
    _host c1 = _host c /\ _port c1 = _port c /\ _database c1 = _database c /\
    _client c1 = _client (connected c) /\
    _secret_key c1 = _secret_key (connected c)).
  { intros n. unfold connected, client_of.
    destruct c as [h p d key cl s dn t ca]. cbn. destruct cl; cbn; auto. }
  assert (Hdirect :
    query now r {| self := c; world := w |} = _query r {| self := c; world := w |} ->
    let c' := self (snd (query now r {| self := c; world := w |})) in
    _host c' = _host c /\ _port c' = _port c /\ _database c' = _database c /\
    ((_client c' = _client c /\ _secret_key c' = _secret_key c /\
      remote_log (world (snd (query now r {| self := c; world := w |})))
        = remote_log w) \/
     (_client c' = _client (connected c) /\
      _secret_key c' = _secret_key (connected c) /\
      remote_log (world (snd (query now r {| self := c; world := w |})))
        = remote_log w ++ [call_of r]))).
  { intros ->. rewrite (_query_run r c w Hok). cbn [snd self world remote_log].
    destruct (Hconn0 (_dbcalls c + 1)%Z) as (H1 & H2 & H3 & H4 & H5).
    repeat split; try assumption. right. auto. }
  destruct (_is_qry_immutable unicode_fold (qry r)) eqn:Him;
    [|apply Hdirect; now apply query_mutating].
  destruct (_imquery_cache c) as [cache|] eqn:Hc;
    [|apply Hdirect; now apply query_uncached].
  destruct (make_key r) as [k|] eqn:Hk.
  - destruct (cached_value c k now) as [v|] eqn:Hv.
    + rewrite (query_hit now r {| self := c; world := w |} k v Him Hk Hv).
      cbn. auto 8.
    + rewrite (query_miss_run now r c w k cache Him Hk Hok Hc Hv).
      unfold after_miss.
      match goal with
      | |- context [connected (with_dbcalls ?n (with_imquery_cache ?k0 c))] =>
          destruct (Hconn n k0) as (H1 & H2 & H3 & H4 & H5)
      end.
      destruct (fst (client_method (client_of c) (call_of r) (server w)));
        cbn [snd self world remote_log];
        repeat split; try assumption; right; auto.
  - rewrite (query_no_key now r {| self := c; world := w |} Him);
      [|cbn; now rewrite Hc | assumption].
    cbn. auto 8.
Qed.


Lemma history_inv_fresh host port database secret_key ttl srv :
  history_inv host port database secret_key ttl
              (fresh host port database secret_key ttl srv).
Proof.
  unfold history_inv. split; [apply conn_inv_fresh|].
  split; [apply born_of_fresh|]. cbn. repeat split; try lia. now intros H.
Qed.

Lemma history_inv_step host port database secret_key ttl (a : action) (st : state) :
  history_inv host port database secret_key ttl st ->
  history_inv host port database secret_key ttl (perform1 a st) /\
  (remote_calls (perform1 a st) - _dbcalls (self (perform1 a st))
     - _total_dbcalls (self (perform1 a st)) >=
   remote_calls st - _dbcalls (self st) - _total_dbcalls (self st))%Z /\
  (a <> DoResetTotal ->
   (remote_calls (perform1 a st) - _dbcalls (self (perform1 a st))
     - _total_dbcalls (self (perform1 a st)) =
    remote_calls st - _dbcalls (self st) - _total_dbcalls (self st))%Z).
Proof.
  intros (Hinv & Hborn & Hlog & Hd & Ht & Hsum).
  pose proof (perform1_inv ttl a st Hinv) as Hinv'.
  destruct a as [|now r|now|exc now| |exc now]; cbn [perform1] in *.
  - (* conn.client *)
    destruct st as [c w]. cbn [self world] in *.
    pose proof (born_of_connected _ _ _ _ c Hborn) as (Hb & Hcl & Hkey).
    assert (E : snd (client {| self := c; world := w |}) =
                {| self := connected c; world := w |}).
    { unfold client, connected, client_of. unfold_monad. cbn.
      destruct Hborn as (_ & _ & _ & [[H1 H2] | [H1 H2]]);
        rewrite H1, ?H2; reflexivity. }
    rewrite E in *. unfold history_inv, remote_calls in *.
    cbn [self world] in *.
    destruct (connected_fields c) as (Ed & Et & _).
    rewrite Ed, Et.
    split; [split; [exact Hinv' | split; [exact Hb | split;
      [intros _; exact Hkey | lia]]] | split; [lia | intros _; lia]].
  - (* await conn.query(...) *)
    pose proof (query_counts ttl now r st Hinv) as [Hcd Hct].
    destruct st as [c w]. cbn [self world] in *.
    pose proof (born_of_credentials _ _ _ _ c Hborn) as Hok.
    pose proof (query_identity now r c w Hok) as (Hh & Hp & Hdb & Hid).
    pose proof (born_of_connected _ _ _ _ c Hborn)
      as ((_ & _ & _ & Hbc) & Hcl & Hkey).
    set (st' := query now r {| self := c; world := w |}) in *.
    assert (Hgrow : (remote_calls {| self := c; world := w |}
                     <= remote_calls (snd st'))%Z).
    { unfold remote_calls. cbn [world].
      destruct Hid as [(_ & _ & ->) | (_ & _ & ->)];
        [lia | rewrite length_app; cbn; lia]. }
    assert (Hborn' : born_of host port database secret_key (self (snd st'))).
    { destruct Hborn as (E1 & E2 & E3 & Hcreds).
      split; [congruence | split; [congruence | split; [congruence|]]].
      destruct Hid as [(-> & -> & _) | (-> & -> & _)];
        [exact Hcreds | exact Hbc]. }
    assert (Hlog' : remote_log (world (snd st')) <> [] ->
                    _secret_key (self (snd st')) = None).
    { destruct Hid as [(_ & -> & ->) | (_ & -> & _)];
        [exact Hlog | intros _; exact Hkey]. }
    unfold history_inv. rewrite Hct in *.
    split; [split; [exact Hinv' | split; [exact Hborn' | split;
      [exact Hlog' | lia]]] | split; [lia | intros _; lia]].
  - (* __aenter__ *)
    unfold history_inv, remote_calls in *. cbn in *.
    split; [split; [exact Hinv' | split; [exact Hborn | split;
      [exact Hlog | lia]]] | split; [lia | intros _; lia]].
  - (* __aexit__ *)
    rewrite __aexit___run in *.
    unfold history_inv, remote_calls in *. cbn in *.
    split; [split; [exact Hinv' | split; [exact Hborn | split;
      [exact Hlog | lia]]] | split; [lia | intros _; lia]].
  - (* _reset_total_db_calls *)
    unfold history_inv, remote_calls in *. cbn in *.
    split; [split; [exact Hinv' | split; [exact Hborn | split;
      [exact Hlog | lia]]] | split; [lia | intros H; now elim H]].
  - (* __aexit__, cancelled in its sleep *)
    rewrite __aexit___cancelled in *.
    unfold history_inv, remote_calls in *. cbn [snd] in *.
    split; [split; [exact Hinv' | split; [exact Hborn | split;
      [exact Hlog | lia]]] | split; [lia | intros _; lia]].
Qed.

Lemma history_inv_perform host port database secret_key ttl
                          (hist : list action) (st : state) :
  history_inv host port database secret_key ttl st ->
  history_inv host port database secret_key ttl (perform hist st) /\
  (never_reset hist = true ->
   (remote_calls (perform hist st) - _dbcalls (self (perform hist st))
     - _total_dbcalls (self (perform hist st)) =
    remote_calls st - _dbcalls (self st) - _total_dbcalls (self st))%Z).
Proof.
  unfold perform. revert st.
  induction hist as [|a hist IH]; intros st H; cbn [fold_left never_reset].
  - split; [exact H | reflexivity].
  - destruct (history_inv_step _ _ _ _ _ a st H) as (H' & _ & Heq).
    destruct (IH _ H') as (H'' & Heq').
    split; [exact H''|]. intros Hn.
    assert (a <> DoResetTotal /\ never_reset hist = true) as [Ha Hh]
      by (destruct a; try discriminate; split; try assumption; discriminate).
    rewrite (Heq' Hh). exact (Heq Ha).
Qed.

Lemma reached_history_inv host port database secret_key ttl srv hist :
  history_inv host port database secret_key ttl
    (perform hist (fresh host port database secret_key ttl srv)).
Proof. apply history_inv_perform, history_inv_fresh. Qed.

Lemma client_of_born host port database secret_key c :
  born_of host port database secret_key c ->
  client_of c = create_async_client host port database secret_key.
Proof.
  unfold client_of.
  intros (-> & -> & -> & [[-> ->] | [-> _]]); reflexivity.
Qed.

Lemma client_run host port database secret_key (c : EdgeDBCloudConn) (w : World) :
  born_of host port database secret_key c ->
  client {| self := c; world := w |} =
  (Ok (create_async_client host port database secret_key),
   {| self := connected c; world := w |}).
Proof.
  intros H. unfold client, connected. rewrite (client_of_born _ _ _ _ c H).
  unfold_monad. cbn.
  destruct H as (-> & -> & -> & [[-> ->] | [-> _]]); reflexivity.
Qed.

(** X1.  The client of a connection is made once, on first use, from the
    four arguments of [__init__]: at every point of every history the
    property [client] returns that same client and does not raise; from
    then on the attribute holds it, the secret key is deleted, and a
    second access changes nothing.  The key is kept exactly as long as no
    client is made, and it is gone as soon as the server has been
    invoked. *)
Theorem client_made_once :
  forall host port database secret_key ttl srv hist,
    let st := perform hist (fresh host port database secret_key ttl srv) in
    let cl := create_async_client host port database secret_key in
    fst (client st) = Ok cl /\
    _client (self (snd (client st))) = Some cl /\
    _secret_key (self (snd (client st))) = None /\
    client (snd (client st)) = (Ok cl, snd (client st)) /\
    world (snd (client st)) = world st /\
    (_secret_key (self st) = None <-> _client (self st) = Some cl) /\
    (_secret_key (self st) = Some secret_key <-> _client (self st) = None) /\
    (remote_log (world st) <> [] -> _secret_key (self st) = None).
Proof.
  intros host port database secret_key ttl srv hist st cl.
  destruct (reached_history_inv host port database secret_key ttl srv hist)
    as (_ & Hborn & Hlog & _).
  fold st in Hborn, Hlog. destruct st as [c w]. cbn [self world] in *.
  rewrite (client_run _ _ _ _ c w Hborn). cbn [fst snd self world].
  destruct (born_of_connected _ _ _ _ c Hborn) as (Hb & Hcl & Hkey).
  rewrite (client_run _ _ _ _ (connected c) w Hb).
  assert (Hidem : connected (connected c) = connected c)
    by (unfold connected at 1; now rewrite Hcl).
  rewrite Hidem.
  split; [reflexivity | split; [exact Hcl | split; [exact Hkey |
    split; [reflexivity | split; [reflexivity|]]]]].
  destruct Hborn as (_ & _ & _ & [[H1 H2] | [H1 H2]]); rewrite H1, H2 in *.
  - split; [split; discriminate | split; [split; auto | exact Hlog]].
  - split; [split; auto | split; [split; discriminate | auto]].
Qed.

Lemma subseq_refl (A : Type) (l : list A) : subseq l l.
Proof. induction l; [apply subseq_nil | now apply subseq_take]. Qed.

Lemma subseq_app (A : Type) (l1 l1' l2 l2' : list A) :
  subseq l1 l1' -> subseq l2 l2' -> subseq (l1 ++ l2) (l1' ++ l2').
Proof.
  induction 1; intros H2; cbn;
    [exact H2 | apply subseq_skip; auto | apply subseq_take; auto].
Qed.




(** X3.  The two counters account for the invocations of the client:
    along every history neither is negative and together they never
    exceed the number of invocations made; as long as
    [_reset_total_db_calls] is not used they add up to exactly that
    number, whatever the windows entered and left, cached or not. *)
Theorem counters_account_for_invocations :
  forall host port database secret_key ttl srv hist,
    let st := perform hist (fresh host port database secret_key ttl srv) in
    (0 <= _dbcalls (self st))%Z /\
    (0 <= _total_dbcalls (self st))%Z /\
    (_dbcalls (self st) + _total_dbcalls (self st) <= remote_calls st)%Z /\
    (never_reset hist = true ->
     (_dbcalls (self st) + _total_dbcalls (self st))%Z = remote_calls st).
Proof.
  intros host port database secret_key ttl srv hist st.
  destruct (history_inv_perform host port database secret_key ttl hist _
              (history_inv_fresh host port database secret_key ttl srv))
    as ((_ & _ & _ & Hd & Ht & Hsum) & Heq).
  fold st in Hd, Ht, Hsum, Heq.
  repeat split; try assumption.
  intros Hn. specialize (Heq Hn). cbn in Heq. lia.
Qed.

(** X4.  [aclose] closes the one client of the connection, which it makes
    on the spot when no request has made it yet, and keeps it: it returns
    when the client closes in time and raises TimeoutError otherwise, and
    either way the attribute [_client] still holds the client, so that a
    later access returns that same, closed, client; the counters, the
    cache and the log are as before. *)
Theorem aclose_keeps_client :
  forall host port database secret_key ttl srv hist timeout,
    let st := perform hist (fresh host port database secret_key ttl srv) in
    let cl := create_async_client host port database secret_key in
    let closing := client_aclose cl timeout (server (world st)) in
    let res := aclose timeout st in
    fst res = (if fst closing then Ok tt else Raise TimeoutError) /\
    server (world (snd res)) = snd closing /\
    remote_log (world (snd res)) = remote_log (world st) /\
    _client (self (snd res)) = Some cl /\
    _secret_key (self (snd res)) = None /\
    client (snd res) = (Ok cl, snd res) /\
    _dbcalls (self (snd res)) = _dbcalls (self st) /\
    _total_dbcalls (self (snd res)) = _total_dbcalls (self st) /\
    _imquery_cache (self (snd res)) = _imquery_cache (self st).
Proof.
  intros host port database secret_key ttl srv hist timeout st cl closing res.
  destruct (reached_history_inv host port database secret_key ttl srv hist)
    as (_ & Hborn & _).
  fold st in Hborn. subst res closing. destruct st as [c w].
  cbn [self world] in *.
  destruct (born_of_connected _ _ _ _ c Hborn) as (Hb & Hcl & Hkey).
  unfold aclose, bind. rewrite (client_run _ _ _ _ c w Hborn).
  cbn [self world server remote_log]. fold cl.
  destruct (client_aclose cl timeout (server w)) as [in_time srv'].
  cbn [fst snd self world server remote_log].
  rewrite (client_run _ _ _ _ (connected c) _ Hb).
  assert (Hidem : connected (connected c) = connected c)
    by (unfold connected at 1; now rewrite Hcl).
  rewrite Hidem.
  destruct (connected_fields c) as (Ed & Et & Eca & _).
  repeat split; assumption.
Qed.

(* ================================================================== *)
(** ** The counters when tasks and windows interleave *)
(* ================================================================== *)

Lemma update_cache_run (f : list (CacheKey * CacheEntry) -> list (CacheKey * CacheEntry))
                       (c : EdgeDBCloudConn) (w : World) :
  exists c',
    snd (update_cache f {| self := c; world := w |}) = {| self := c'; world := w |} /\
    _dbcalls c' = _dbcalls c /\ _total_dbcalls c' = _total_dbcalls c /\
    credentials_ok c' = credentials_ok c /\
    option_map cache_ttl (_imquery_cache c') = option_map cache_ttl (_imquery_cache c).
Proof.
  unfold update_cache. unfold_monad. cbn.
  destruct (_imquery_cache c) as [cache|] eqn:E; cbn.
  - eexists. split; [reflexivity|]. cbn. auto.
  - exists c. rewrite E. auto.
Qed.

Lemma session_inv_issue (ttl : Z) (r : QueryRecord) (c : EdgeDBCloudConn) (w : World) :
  conn_inv ttl c ->
  (_dbcalls c + _total_dbcalls c)%Z = remote_calls {| self := c; world := w |} ->
  exists x c',
    _query_issue r {| self := c; world := w |} =
      (Ok x, {| self := c';
                world := {| server := server w;
                            remote_log := remote_log w ++ [call_of r] |} |}) /\
    conn_inv ttl c' /\
    (_dbcalls c' + _total_dbcalls c')%Z =
      remote_calls {| self := c';
                      world := {| server := server w;
                                  remote_log := remote_log w ++ [call_of r] |} |}.
Proof.
  intros [Hok Httl] Hsum.
  exists (client_of c, call_of r), (connected (with_dbcalls (_dbcalls c + 1) c)).
  split; [apply (_query_issue_run r c w Hok)|].
  destruct (connected_fields (with_dbcalls (_dbcalls c + 1) c))
    as (Hd & Ht & Hca & _ & _ & Hcr).
  split; [split; [now apply Hcr | now rewrite Hca]|].
  unfold remote_calls in *. cbn [world remote_log] in *.
  rewrite Hd, Ht, length_app. cbn. lia.
Qed.

Lemma session_step_inv (ttl : Z) (e : session_event) (m m' : tasks) :
  session_inv ttl m -> session_step e m = Some m' -> session_inv ttl m'.
Proof.
  unfold session_inv. destruct m as [[c w] fls dcs dl]. cbn [conn self].
  intros [Hinv Hsum] Hstep.
  assert (Hdirect : forall task r,
    let m1 := arrive_direct task r
                {| conn := {| self := c; world := w |}; flights := fls;
                   direct_calls := dcs; delivered := dl |} in
    conn_inv ttl (self (conn m1)) /\
    (_dbcalls (self (conn m1)) + _total_dbcalls (self (conn m1)))%Z
      = remote_calls (conn m1)).
  { intros task r. unfold arrive_direct. cbn [conn].
    destruct (session_inv_issue ttl r c w Hinv Hsum) as (x & c' & -> & H1 & H2).
    cbn [conn self]. auto. }
  assert (Hcache : forall f,
    conn_inv ttl (self (snd (update_cache f {| self := c; world := w |}))) /\
    (_dbcalls (self (snd (update_cache f {| self := c; world := w |})))
     + _total_dbcalls (self (snd (update_cache f {| self := c; world := w |}))))%Z
      = remote_calls (snd (update_cache f {| self := c; world := w |}))).
  { intros f. destruct (update_cache_run f c w) as (c' & -> & Hd & Ht & Hcr & Hca).
    cbn [self]. unfold remote_calls in *. cbn [world] in *.
    destruct Hinv as [Hok Httl].
    split; [split; congruence | lia]. }
  destruct e as [e|now|exc now]; cbn [session_step] in Hstep.
  - destruct e as [task now r|k|k now|task]; cbn [step conn self] in Hstep.
    + (* a task calls query *)
      destruct (_is_qry_immutable unicode_fold (qry r));
        [destruct (_imquery_cache c) as [cache|] eqn:Hc|];
        injection Hstep as <-; try apply Hdirect.
      unfold arrive_cached. cbn [conn flights direct_calls delivered].
      destruct (make_key r) as [k|]; [|cbn [conn self]; auto].
      destruct (flight_get k fls) as [fl|]; [cbn [conn self]; auto|].
      cbn [self].
      destruct (cached_value c k now) as [v|]; cbn [conn]; [cbn [self]; auto|].
      apply Hcache.
    + (* the execution of a key runs to its await *)
      cbn [flights] in Hstep.
      destruct (flight_get k fls) as [[r ws [x|]]|]; try discriminate.
      cbn [conn] in Hstep.
      destruct (session_inv_issue ttl r c w Hinv Hsum) as (x & c' & E & H1 & H2).
      rewrite E in Hstep. injection Hstep as <-. cbn [conn self]. auto.
    + (* the server answers the execution *)
      cbn [flights] in Hstep.
      destruct (flight_get k fls) as [[r ws [[cl rc]|]]|]; try discriminate.
      cbn [conn] in Hstep. unfold answer_call in Hstep.
      cbn [self world server remote_log] in Hstep.
      destruct (client_method cl rc (server w)) as [[v|err] srv'];
        injection Hstep as <-; cbn [conn].
      * destruct (update_cache_run
                    (cache_put k {| entry_value := v; created_at := now |})
                    c {| server := srv'; remote_log := remote_log w |})
          as (c' & -> & Hd & Ht & Hcr & Hca).
        cbn [self]. unfold remote_calls in *. cbn [world remote_log] in *.
        destruct Hinv as [Hok Httl].
        split; [split; congruence | lia].
      * cbn [self]. unfold remote_calls in *. cbn [world remote_log] in *. auto.
    + (* the server answers an uncached call *)
      cbn [direct_calls] in Hstep.
      destruct (direct_get task dcs) as [[cl rc]|]; [|discriminate].
      cbn [conn] in Hstep. unfold answer_call in Hstep.
      cbn [self world server remote_log] in Hstep.
      destruct (client_method cl rc (server w)) as [o srv'].
      injection Hstep as <-. cbn [conn self].
      unfold remote_calls in *. cbn [world remote_log] in *. auto.
  - injection Hstep as <-. cbn [conn].
    unfold remote_calls in *. cbn in *. split; [exact Hinv | exact Hsum].
  - injection Hstep as <-. cbn [conn].
    unfold remote_calls in *. cbn in *. split; [exact Hinv | lia].
Qed.

Lemma session_run_inv (ttl : Z) (sched : list session_event) (m m' : tasks) :
  session_inv ttl m -> session_run sched m = Some m' -> session_inv ttl m'.
Proof.
  revert m. induction sched as [|e sched IH]; intros m Hinv Hrun; cbn in Hrun.
  - now injection Hrun as <-.
  - destruct (session_step e m) as [m1|] eqn:E; [|discriminate].
    exact (IH m1 (session_step_inv ttl e m m1 Hinv E) Hrun).
Qed.

Lemma session_run_app (s1 s2 : list session_event) (m : tasks) :
  session_run (s1 ++ s2) m =
  match session_run s1 m with
  | Some m' => session_run s2 m'
  | None => None
  end.
Proof.
  revert m. induction s1 as [|e s1 IH]; intros m; cbn; [reflexivity|].
  destruct (session_step e m); [apply IH | reflexivity].
Qed.

(** X5.  Tasks may be created inside a window and get their answer after
    it is left.  Whatever the order in which the loop runs the tasks, the
    executions of the cache and the entries and exits of windows, the two
    counters together are the number of invocations of the client made so
    far, answered or not; right after an exit the per-window count is 0
    and the total is that number. *)
Theorem concurrent_calls_are_counted :
  forall host port database secret_key ttl srv sched m,
    session_run sched (idle (fresh host port database secret_key ttl srv))
      = Some m ->
    (_dbcalls (self (conn m)) + _total_dbcalls (self (conn m)))%Z
      = remote_calls (conn m) /\
    (forall sched' exc now,
        sched = sched' ++ [WindowExit exc now] ->
        _dbcalls (self (conn m)) = 0%Z /\
        _total_dbcalls (self (conn m)) = remote_calls (conn m)).
Proof.
  intros host port database secret_key ttl srv sched m Hrun.
  assert (H0 : session_inv ttl (idle (fresh host port database secret_key ttl srv))).
  { split; [apply conn_inv_fresh | reflexivity]. }
  destruct (session_run_inv ttl sched _ m H0 Hrun) as [_ Hsum].
  split; [exact Hsum|].
  intros sched' exc now ->. rewrite session_run_app in Hrun.
  destruct (session_run sched' _) as [m1|] eqn:E; [|discriminate].
  cbn [session_run session_step] in Hrun. injection Hrun as <-.
  destruct (session_run_inv ttl sched' _ m1 H0 E) as [_ Hsum1].
  cbn [conn] in *.
  unfold remote_calls in *. cbn in *. split; [reflexivity | lia].
Qed.

End Connection.

(* ================================================================== *)
(** ** The resources of the sessions *)
(* ================================================================== *)

Lemma existsb_eqb_In (k : string) (l : list string) :
  existsb (String.eqb k) l = true <-> In k l.
Proof.
  rewrite existsb_exists. split.
  - intros (x & Hin & Heq). apply String.eqb_eq in Heq. now subst.
  - intros Hin. exists k. split; [exact Hin | apply String.eqb_refl].
Qed.

Lemma dict_in_keys {V : Type} (k : string) (d : dict V) :
  dict_in k d = true <-> In k (dict_keys d).
Proof.
  unfold dict_in. induction d as [|[k' v] d IH]; cbn.
  - split; [discriminate | tauto].
  - destruct (String.eqb k k') eqn:E.
    + apply String.eqb_eq in E. subst. split; auto.
    + apply String.eqb_neq in E. rewrite IH. split; [auto | intros [H|H]; [congruence | exact H]].
Qed.

Lemma dict_get_filter {V : Type} (keep : string -> bool) (k : string) (d : dict V) :
  dict_get k (filter (fun item => keep (fst item)) d) =
  if keep k then dict_get k d else None.
Proof.
  induction d as [|[k' v] d IH]; cbn; [now destruct (keep k)|].
  destruct (keep k') eqn:Hk'; cbn; destruct (String.eqb k k') eqn:E;
    try exact IH; apply String.eqb_eq in E; subst k'.
  - now rewrite Hk'.
  - rewrite IH. now rewrite Hk'.
Qed.

Lemma dict_get_set {V : Type} (k k' : string) (v : V) (d : dict V) :
  dict_get k' (dict_set k v d) = if String.eqb k' k then Some v else dict_get k' d.
Proof.
  induction d as [|[k0 v0] d IH]; cbn; [reflexivity|].
  destruct (String.eqb k k0) eqn:E; cbn.
  - apply String.eqb_eq in E. subst k0. now destruct (String.eqb k' k).
  - rewrite IH. destruct (String.eqb k' k0) eqn:E0; [|reflexivity].
    apply String.eqb_eq in E0. subst k0.
    rewrite String.eqb_sym in E. now rewrite E.
Qed.

Lemma dict_keys_set {V : Type} (k : string) (v : V) (d : dict V) :
  dict_keys (dict_set k v d) =
  if dict_in k d then dict_keys d else dict_keys d ++ [k].
Proof.
  unfold dict_in, dict_keys. induction d as [|[k0 v0] d IH]; cbn; [reflexivity|].
  destruct (String.eqb k k0) eqn:E; cbn.
  - apply String.eqb_eq in E. now subst.
  - rewrite IH. now destruct (dict_get k d).
Qed.

Lemma dict_del_get {V : Type} (k k' : string) (d d' : dict V) :
  dict_del k d = Some d' ->
  dict_get k' d' = if String.eqb k k' then None else dict_get k' d.
Proof.
  unfold dict_del. destruct (dict_in k d); [|discriminate].
  intros H. injection H as <-.
  rewrite (dict_get_filter (fun x => negb (String.eqb k x))).
  now destruct (String.eqb k k').
Qed.

Lemma filter_filter {A : Type} (p q : A -> bool) (l : list A) :
  filter q (filter p l) = filter (fun x => p x && q x) l.
Proof.
  induction l as [|x l IH]; cbn; [reflexivity|].
  destruct (p x); cbn; [destruct (q x)|]; now rewrite IH.
Qed.

Lemma filter_all {A : Type} (l : list A) : filter (fun _ => true) l = l.
Proof. induction l as [|x l IH]; cbn; [reflexivity | now rewrite IH]. Qed.

(** Keys that are all in the dict, each once in the list: every deletion
    finds its key, whatever the order, and nothing is toasted. *)
Lemma del_each_found {V : Type} (failed : string -> toast) (ks : list string) :
  forall (d : dict V) (shown : list toast),
    NoDup ks ->
    (forall k, In k ks -> In k (dict_keys d)) ->
    del_each failed ks d shown =
    (filter (fun item => negb (existsb (String.eqb (fst item)) ks)) d, shown).
Proof.
  induction ks as [|k ks IH]; intros d shown Hnd Hin; cbn [del_each].
  - cbn. now rewrite filter_all.
  - unfold dict_del.
    assert (Hk : dict_in k d = true) by (apply dict_in_keys, Hin; now left).
    rewrite Hk. inversion Hnd as [|? ? Hnotin Hnd']; subst.
    rewrite IH; [|exact Hnd'|].
    + rewrite filter_filter. f_equal. apply filter_ext. intros [k0 v0]. cbn.
      rewrite (String.eqb_sym k0 k). now rewrite negb_orb.
    + intros k1 Hk1. unfold dict_keys. apply in_map_iff.
      assert (Hk1d : In k1 (dict_keys d)) by (apply Hin; now right).
      unfold dict_keys in Hk1d. apply in_map_iff in Hk1d as ([k2 v2] & Heq & Hin2).
      cbn in Heq. subst k2. exists (k1, v2). split; [reflexivity|].
      apply filter_In. split; [exact Hin2|]. cbn.
      apply negb_true_iff, String.eqb_neq. intros ->. contradiction.
Qed.

Lemma remove_NoDup (t : string) (s : list string) :
  NoDup s -> NoDup (remove string_dec t s).
Proof.
  induction 1 as [|x s Hnotin Hnd IH]; cbn; [constructor|].
  destruct (string_dec t x); [exact IH|].
  constructor; [|exact IH]. intros Hin. apply in_remove in Hin. tauto.
Qed.

Lemma discard_all_spec (excluded : list string) :
  forall s k,
    In k (discard_all excluded s) <-> In k s /\ ~ In k excluded.
Proof.
  unfold discard_all.
  induction excluded as [|t excluded IH]; intros s k; cbn.
  - tauto.
  - rewrite IH. split.
    + intros [Hin Hex]. apply in_remove in Hin as [Hin Hne].
      split; [exact Hin|]. intros [->|H]; [congruence | contradiction].
    + intros [Hin Hex]. split; [|tauto].
      apply in_in_remove; [|exact Hin]. intros ->. apply Hex. now left.
Qed.

Lemma discard_all_NoDup (excluded : list string) :
  forall s, NoDup s -> NoDup (discard_all excluded s).
Proof.
  unfold discard_all.
  induction excluded as [|t excluded IH]; intros s Hnd; cbn; [exact Hnd|].
  apply IH, remove_NoDup, Hnd.
Qed.

Lemma stale_tokens_spec {V : Type} (cur_ts threshold : Z) (d : dict (V * Z)) (k : string) :
  In k (stale_tokens cur_ts threshold d) <->
  exists v ts, In (k, (v, ts)) d /\ (cur_ts - ts > threshold)%Z.
Proof.
  unfold stale_tokens. rewrite nodup_In, in_map_iff. split.
  - intros ([k' [v ts]] & Heq & Hin). cbn in Heq. subst k'.
    apply filter_In in Hin as [Hin Hst]. cbn in Hst.
    exists v, ts. split; [exact Hin | lia].
  - intros (v & ts & Hin & Hst). exists (k, (v, ts)). split; [reflexivity|].
    apply filter_In. split; [exact Hin|]. cbn. lia.
Qed.

Lemma to_del_found {V : Type} (cur_ts threshold : Z) (excluded : list string)
                   (d : dict (V * Z)) (k : string) :
  In k (discard_all excluded (stale_tokens cur_ts threshold d)) ->
  In k (dict_keys d).
Proof.
  intros H. apply discard_all_spec in H as [H _].
  apply stale_tokens_spec in H as (v & ts & Hin & _).
  unfold dict_keys. apply in_map_iff. now exists (k, (v, ts)).
Qed.

Lemma NoDup_keys_same {V : Type} (d : dict V) (k : string) (v v' : V) :
  NoDup (dict_keys d) -> In (k, v) d -> In (k, v') d -> v = v'.
Proof.
  unfold dict_keys. induction d as [|[k0 v0] d IH]; cbn; [tauto|].
  intros Hnd [H1|H1] [H2|H2]; inversion Hnd as [|? ? Hnotin Hnd']; subst.
  - congruence.
  - injection H1 as -> ->. exfalso. apply Hnotin.
    apply in_map_iff. now exists (k, v').
  - injection H2 as -> ->. exfalso. apply Hnotin.
    apply in_map_iff. now exists (k, v).
  - now apply IH.
Qed.

(** One of the two dicts of [_routine_clean]. *)
Lemma clean_one {V : Type} (set_iter : list string -> list string)
                (failed : string -> toast) (cur_ts threshold : Z)
                (excluded : list string) (d : dict (V * Z)) (shown : list toast) :
  (forall s, Permutation (set_iter s) s) ->
  del_each failed
    (set_iter (discard_all excluded (stale_tokens cur_ts threshold d))) d shown =
  (filter (fun item =>
             negb (existsb (String.eqb (fst item))
                     (discard_all excluded (stale_tokens cur_ts threshold d)))) d,
   shown).
Proof.
  intros Hperm.
  set (to_del := discard_all excluded (stale_tokens cur_ts threshold d)).
  assert (Hnd : NoDup to_del)
    by (apply discard_all_NoDup; unfold stale_tokens; apply NoDup_nodup).
  rewrite del_each_found.
  - f_equal. apply filter_ext. intros [k v]. cbn. f_equal.
    apply eq_true_iff_eq. rewrite !existsb_eqb_In.
    split; apply Permutation_in; [apply Hperm | symmetry; apply Hperm].
  - apply (Permutation_NoDup (l := to_del)); [symmetry; apply Hperm | exact Hnd].
  - intros k Hin. apply (to_del_found cur_ts threshold excluded d).
    apply (Permutation_in k (Hperm to_del)), Hin.
Qed.

Lemma clean_one_kept {V : Type} (cur_ts threshold : Z) (excluded : list string)
                     (d : dict (V * Z)) :
  NoDup (dict_keys d) ->
  filter (fun item =>
            negb (existsb (String.eqb (fst item))
                    (discard_all excluded (stale_tokens cur_ts threshold d)))) d =
  filter (fun item =>
            existsb (String.eqb (fst item)) excluded
            || (cur_ts - snd (snd item) <=? threshold)%Z) d.
Proof.
  intros Hnd. apply filter_ext_in. intros [k [v ts]] Hin. cbn.
  apply eq_true_iff_eq.
  rewrite negb_true_iff, orb_true_iff, existsb_eqb_In, Z.leb_le.
  rewrite <- not_true_iff_false, existsb_eqb_In, discard_all_spec, stale_tokens_spec.
  split.
  - intros H. destruct (in_dec string_dec k excluded) as [Hex|Hex]; [now left|].
    right. destruct (Z_le_gt_dec (cur_ts - ts) threshold) as [Hle|Hgt]; [exact Hle|].
    exfalso. apply H. split; [|exact Hex]. now exists v, ts.
  - intros [Hex|Hle] [(v' & ts' & Hin' & Hst) Hnex]; [contradiction|].
    assert (E : (v, ts) = (v', ts')) by (apply (NoDup_keys_same d k); assumption).
    injection E as -> ->. lia.
Qed.

(** X6.  What [_routine_clean] leaves of the two dicts when nothing else
    touches them during the call: the items whose token is excluded or
    whose time stamp is at most [threshold] before the reading of the
    clock, unchanged and in their order, and it removes the others.  The
    order in which the sets are gone through does not matter, every
    deletion finds its key, and no toast is shown. *)
Theorem routine_clean_keeps_the_excluded_and_the_fresh :
  forall (Loop Conn : Type) (set_iter : list string -> list string)
         (cur_ts : Z) (excluded_token : list string) (threshold : Z)
         (a : resources Loop Conn),
    (forall s, Permutation (set_iter s) s) ->
    NoDup (dict_keys (loop_dict a)) ->
    NoDup (dict_keys (conn_dict a)) ->
    let a' := _routine_clean set_iter cur_ts excluded_token threshold a in
    loop_dict a' =
      filter (fun item =>
                existsb (String.eqb (fst item)) excluded_token
                || (cur_ts - snd (snd item) <=? threshold)%Z) (loop_dict a) /\
    conn_dict a' =
      filter (fun item =>
                existsb (String.eqb (fst item)) excluded_token
                || (cur_ts - snd (snd item) <=? threshold)%Z) (conn_dict a) /\
    toasts a' = toasts a.
Proof.
  intros Loop Conn set_iter cur_ts excluded threshold a Hperm Hl Hc.
  unfold _routine_clean.
  rewrite (clean_one set_iter DelLoopFailed cur_ts threshold excluded
             (loop_dict a) (toasts a) Hperm).
  rewrite (clean_one set_iter DelConnFailed cur_ts threshold excluded
             (conn_dict a) (toasts a) Hperm).
  cbn. repeat split.
  - apply clean_one_kept, Hl.
  - apply clean_one_kept, Hc.
Qed.

(** What [_routine_clean] does to the value of one token, whether or not
    the keys of the dicts are unique. *)
Lemma clean_one_get {V : Type} (cur_ts threshold : Z) (excluded : list string)
                    (d : dict (V * Z)) (t : string) :
  let d' := filter (fun item =>
                      negb (existsb (String.eqb (fst item))
                              (discard_all excluded
                                 (stale_tokens cur_ts threshold d)))) d in
  (In t excluded -> dict_get t d' = dict_get t d) /\
  (dict_get t d' = None \/ dict_get t d' = dict_get t d).
Proof.
  intros d'. subst d'.
  rewrite (dict_get_filter
             (fun k => negb (existsb (String.eqb k)
                               (discard_all excluded
                                  (stale_tokens cur_ts threshold d))))).
  split.
  - intros Hex.
    destruct (existsb _ _) eqn:E; [|reflexivity].
    apply existsb_eqb_In, discard_all_spec in E. tauto.
  - destruct (negb _); auto.
Qed.

Lemma routine_clean_get {Loop Conn : Type} (set_iter : list string -> list string)
                        (cur_ts : Z) (excluded : list string) (threshold : Z)
                        (a : resources Loop Conn) :
  (forall s, Permutation (set_iter s) s) ->
  let a' := _routine_clean set_iter cur_ts excluded threshold a in
  toasts a' = toasts a /\
  (forall t,
      (In t excluded -> dict_get t (loop_dict a') = dict_get t (loop_dict a)) /\
      (dict_get t (loop_dict a') = None \/
       dict_get t (loop_dict a') = dict_get t (loop_dict a))) /\
  (forall t,
      (In t excluded -> dict_get t (conn_dict a') = dict_get t (conn_dict a)) /\
      (dict_get t (conn_dict a') = None \/
       dict_get t (conn_dict a') = dict_get t (conn_dict a))).
Proof.
  intros Hperm. unfold _routine_clean.
  rewrite (clean_one set_iter DelLoopFailed cur_ts threshold excluded
             (loop_dict a) (toasts a) Hperm).
  rewrite (clean_one set_iter DelConnFailed cur_ts threshold excluded
             (conn_dict a) (toasts a) Hperm).
  cbn [loop_dict conn_dict toasts].
  split; [reflexivity | split; intros t; apply clean_one_get].
Qed.

(** X7.  A run of the script that gets past [_routine_clean] leaves the
    session its loop and its connection: they are the ones its token had
    before, or else the new loop and the connection just made, both are
    registered under the token with the time stamp of the run, and no
    cleaning of the run removes them, however late its clock reads.  The
    items of the other tokens are removed or left as they were, no toast
    is shown, and the button Clear Conn then finds the connection, removes
    it alone and leaves the loop. *)
Theorem session_keeps_its_own_resources :
  forall (Loop Conn : Type) (set_iter : list string -> list string)
         (cur_ts : Z) (token : string) (new_event_loop : Loop)
         (new_conn : outcome Conn) (pressed : resource_button) (clean_ts : Z)
         (a a' : resources Loop Conn) (loop : Loop) (c : Conn),
    (forall s, Permutation (set_iter s) s) ->
    __main__ set_iter cur_ts token new_event_loop new_conn pressed clean_ts a
      = (Ok (loop, c), a') ->
    dict_get token (loop_dict a') = Some (loop, cur_ts) /\
    dict_get token (conn_dict a') = Some (c, cur_ts) /\
    loop = match dict_get token (loop_dict a) with
           | Some (loop0, _) => loop0
           | None => new_event_loop
           end /\
    Ok c = match dict_get token (conn_dict a) with
           | Some (c0, _) => Ok c0
           | None => new_conn
           end /\
    (forall t, t <> token ->
       (dict_get t (loop_dict a') = None \/
        dict_get t (loop_dict a') = dict_get t (loop_dict a)) /\
       (dict_get t (conn_dict a') = None \/
        dict_get t (conn_dict a') = dict_get t (conn_dict a))) /\
    toasts a' = toasts a /\
    dict_get token (conn_dict (clear_conn token a')) = None /\
    (forall t, t <> token ->
       dict_get t (conn_dict (clear_conn token a')) = dict_get t (conn_dict a')) /\
    loop_dict (clear_conn token a') = loop_dict a' /\
    toasts (clear_conn token a') = toasts a'.
Proof.
  intros Loop Conn set_iter cur_ts token new_loop new_conn pressed clean_ts
         a a' loop c Hperm Hrun.
  unfold __main__, _prepare_loop, _prepare_conn in Hrun.
  cbn [conn_dict loop_dict toasts] in Hrun.
  set (loop0 := match dict_get token (loop_dict a) with
                | Some (l, _) => l
                | None => new_loop
                end) in *.
  set (made := match dict_get token (conn_dict a) with
               | Some (c0, _) => Ok c0
               | None => new_conn
               end) in *.
  destruct made as [c0|e] eqn:Hmade; [|discriminate].
  set (a2 := {| loop_dict := dict_set token (loop0, cur_ts) (loop_dict a);
                conn_dict := dict_set token (c0, cur_ts) (conn_dict a);
                toasts := toasts a |}) in *.
  assert (H2 : dict_get token (loop_dict a2) = Some (loop0, cur_ts) /\
               dict_get token (conn_dict a2) = Some (c0, cur_ts) /\
               (forall t, t <> token ->
                  dict_get t (loop_dict a2) = dict_get t (loop_dict a) /\
                  dict_get t (conn_dict a2) = dict_get t (conn_dict a)) /\
               toasts a2 = toasts a).
  { cbn [a2 loop_dict conn_dict toasts]. rewrite !dict_get_set, String.eqb_refl.
    repeat split; rewrite dict_get_set;
      apply String.eqb_neq in H; now rewrite H. }
  assert (H3 : exists a3,
             _display_res set_iter pressed [token] a2 = (Ok tt, a3) /\
             a' = _routine_clean set_iter clean_ts [token] 300 a3 /\
             loop = loop0 /\ c = c0 /\
             dict_get token (loop_dict a3) = Some (loop0, cur_ts) /\
             dict_get token (conn_dict a3) = Some (c0, cur_ts) /\
             (forall t, t <> token ->
                (dict_get t (loop_dict a3) = None \/
                 dict_get t (loop_dict a3) = dict_get t (loop_dict a)) /\
                (dict_get t (conn_dict a3) = None \/
                 dict_get t (conn_dict a3) = dict_get t (conn_dict a))) /\
             toasts a3 = toasts a).
  { destruct H2 as (Hl & Hc & Hothers & Ht).
    destruct pressed as [| |now]; cbn [_display_res] in Hrun |- *.
    - exists a2. injection Hrun as <- <- <-.
      repeat split; auto; intros; right; now apply Hothers.
    - discriminate.
    - exists (_routine_clean set_iter now [token] 3 a2).
      injection Hrun as <- <- <-.
      destruct (routine_clean_get set_iter now [token] 3 a2 Hperm)
        as (Ht' & Hloops & Hconns).
      split; [reflexivity|]. split; [reflexivity|].
      split; [reflexivity|]. split; [reflexivity|].
      split; [rewrite (proj1 (Hloops token)); [exact Hl | now left]|].
      split; [rewrite (proj1 (Hconns token)); [exact Hc | now left]|].
      split; [|congruence].
      intros t Hne. destruct (Hothers t Hne) as [E1 E2].
      rewrite <- E1, <- E2. split; [apply Hloops | apply Hconns]. }
  destruct H3 as (a3 & _ & -> & -> & -> & Hl & Hc & Hothers & Ht).
  destruct (routine_clean_get set_iter clean_ts [token] 300 a3 Hperm)
    as (Ht' & Hloops & Hconns).
  set (a4 := _routine_clean set_iter clean_ts [token] 300 a3) in *.
  assert (Hl4 : dict_get token (loop_dict a4) = Some (loop0, cur_ts))
    by (rewrite (proj1 (Hloops token)); [exact Hl | now left]).
  assert (Hc4 : dict_get token (conn_dict a4) = Some (c0, cur_ts))
    by (rewrite (proj1 (Hconns token)); [exact Hc | now left]).
  split; [exact Hl4|]. split; [exact Hc4|].
  split; [reflexivity|]. split; [reflexivity|].
  split.
  { intros t Hne. destruct (Hothers t Hne) as [E1 E2]. split.
    - destruct (proj2 (Hloops t)) as [E|E]; [now left | rewrite E; exact E1].
    - destruct (proj2 (Hconns t)) as [E|E]; [now left | rewrite E; exact E2]. }
  split; [congruence|].
  unfold clear_conn.
  destruct (dict_del token (conn_dict a4)) as [cd|] eqn:Hdel.
  - cbn [conn_dict loop_dict toasts].
    split; [rewrite (dict_del_get token token _ _ Hdel); now rewrite String.eqb_refl|].
    split; [|split; reflexivity].
    intros t Hne. rewrite (dict_del_get token t _ _ Hdel).
    assert (E : String.eqb token t = false) by (apply String.eqb_neq; congruence).
    now rewrite E.
  - exfalso. unfold dict_del, dict_in in Hdel. now rewrite Hc4 in Hdel.
Qed.

(* ================================================================== *)
(** ** The configuration *)
(* ================================================================== *)

Lemma dict_in_del {V : Type} (k : string) (d d' : dict V) :
  dict_del k d = Some d' -> ~ In k (dict_keys d').
Proof.
  intros Hdel Hin. apply dict_in_keys in Hin. unfold dict_in in Hin.
  rewrite (dict_del_get k k _ _ Hdel), String.eqb_refl in Hin. discriminate.
Qed.

(** X8.  What [load_db_info] returns never has the secret key in it: it
    is the table of [load_st_toml] with that one key taken out and every
    other key as it was, and without a secret key in the table, or
    without a table, it raises, the [KeyError] of the key or what
    [load_st_toml] raised. *)
Theorem db_info_is_the_table_without_the_secret_key :
  forall (read_toml : string -> outcome (dict (dict toml_value)))
         (st_secrets : string -> outcome (dict toml_value)),
    match load_db_info read_toml st_secrets with
    | Ok dbinfo =>
        exists table,
          load_st_toml read_toml st_secrets = Ok table /\
          dict_in "secret_key" table = true /\
          dict_get "secret_key" dbinfo = None /\
          ~ In "secret_key"%string (dict_keys dbinfo) /\
          (forall k, k <> "secret_key"%string ->
                     dict_get k dbinfo = dict_get k table)
    | Raise e =>
        load_st_toml read_toml st_secrets = Raise e \/
        (exists table,
            load_st_toml read_toml st_secrets = Ok table /\
            dict_in "secret_key" table = false /\
            e = KeyError "secret_key")
    end.
Proof.
  intros read_toml st_secrets. unfold load_db_info.
  destruct (load_st_toml read_toml st_secrets) as [table|e]; [|now left].
  destruct (dict_del "secret_key" table) as [dbinfo|] eqn:Hdel.
  - exists table. split; [reflexivity|].
    split; [unfold dict_del in Hdel; now destruct (dict_in _ table)|].
    split; [rewrite (dict_del_get _ "secret_key" _ _ Hdel); reflexivity|].
    split; [exact (dict_in_del _ _ _ Hdel)|].
    intros k Hne. rewrite (dict_del_get _ k _ _ Hdel).
    assert (E : String.eqb "secret_key" k = false)
      by (apply String.eqb_neq; congruence).
    now rewrite E.
  - right. exists table. split; [reflexivity|].
    split; [unfold dict_del in Hdel; now destruct (dict_in _ table)|reflexivity].
Qed.

(** X9.  [load_st_toml] reads the secrets of Streamlit only when the file
    is missing: with [FileNotFoundError] from the file the answer is that
    of the secrets, whatever it is; in every other case the secrets play
    no part, and a file that is there without the table raises the
    [KeyError] of the table even when the secrets have it. *)
Theorem secrets_are_read_only_without_the_file :
  forall (read_toml : string -> outcome (dict (dict toml_value)))
         (st_secrets : string -> outcome (dict toml_value)),
    (read_toml "edgedbcloud.toml"%string = Raise FileNotFoundError ->
     load_st_toml read_toml st_secrets = st_secrets "edgedb-cloud"%string) /\
    (read_toml "edgedbcloud.toml"%string <> Raise FileNotFoundError ->
     forall st_secrets',
       load_st_toml read_toml st_secrets = load_st_toml read_toml st_secrets') /\
    (forall data,
        read_toml "edgedbcloud.toml"%string = Ok data ->
        dict_get "edgedb-cloud" data = None ->
        load_st_toml read_toml st_secrets = Raise (KeyError "edgedb-cloud")).
Proof.
  intros read_toml st_secrets. unfold load_st_toml, load_toml.
  split; [|split].
  - intros ->. reflexivity.
  - intros Hne st_secrets'.
    destruct (read_toml "edgedbcloud.toml"%string) as [data|e].
    + now destruct (dict_get "edgedb-cloud" data).
    + destruct (is_FileNotFoundError e) eqn:E; [|reflexivity].
      exfalso. apply Hne. destruct e; try discriminate. cbn in E.
      apply String.eqb_eq in E. now subst.
  - intros data -> ->. reflexivity.
Qed.

(** X10.  The health check of the application and the one of the
    connection probe the same URL: for a connection made with the host
    and the port of the table, a string and an integer, [is_db_healthy]
    answers what the property [is_healthy] of the connection answers, at
    every point of every history of the connection, exceptions
    included. *)
Theorem app_health_check_agrees_with_the_connection :
  forall (unicode_fold : codepoint -> str) (QueryResult Server : Type)
         (client_method : AsyncIOClient -> remote_call -> Server
                          -> outcome QueryResult * Server)
         (read_toml : string -> outcome (dict (dict toml_value)))
         (st_secrets : string -> outcome (dict toml_value))
         (httpx_get : http_request -> http_reply)
         (table : dict toml_value)
         (host : string) (port : Z) (database secret_key : string) (ttl : Z)
         (srv : Server) (hist : list action),
    load_st_toml read_toml st_secrets = Ok table ->
    dict_get "host" table = Some (TomlStr host) ->
    dict_get "port" table = Some (TomlInt port) ->
    is_db_healthy read_toml st_secrets httpx_get =
    is_healthy httpx_get
      (self (perform unicode_fold client_method hist
               (fresh QueryResult host port database secret_key ttl srv))).
Proof.
  intros unicode_fold QueryResult Server client_method read_toml st_secrets
         httpx_get table host port database secret_key ttl srv hist
         Htable Hhost Hport.
  destruct (reached_history_inv unicode_fold QueryResult Server client_method
              host port database secret_key ttl srv hist)
    as (_ & (Hh & Hp & _) & _).
  unfold is_db_healthy, is_healthy, _healthy_check_url.
  rewrite Htable, Hhost, Hport, Hh, Hp. reflexivity.
Qed.

(* ================================================================== *)
(** ** The query form *)
(* ================================================================== *)

(** X11.  The radio of the form offers [str(member)] for the three
    members of [RespConstraint], three different strings.  Each of them
    has a label, which starts with the name of its member, and converts
    back to the member it was made of; every other string has no label
    and no member: [required_single_format_func] raises [TypeError] and
    [convert_str_to_required_single] raises [KeyError] on exactly the
    same strings. *)
Theorem radio_options_convert_back :
  NoDup required_single_options /\
  (forall member,
      In (str_of_RespConstraint member) required_single_options /\
      convert_str_to_required_single (str_of_RespConstraint member) = Ok member /\
      exists rest,
        required_single_format_func (str_of_RespConstraint member) =
        Ok (name_of_RespConstraint member ++ ": " ++ rest)%string) /\
  (forall s,
      ~ In s required_single_options ->
      convert_str_to_required_single s = Raise (KeyError s) /\
      required_single_format_func s =
        Raise (TypeError (s ++ " may not be the RespConstraint Enum member"))).
Proof.
  split; [|split].
  - unfold required_single_options. cbn.
    repeat constructor; cbn; intuition discriminate.
  - intros member. split; [destruct member; cbn; tauto|].
    split; [now destruct member|].
    destruct member; eexists; reflexivity.
  - intros s Hnotin. unfold required_single_options in Hnotin. cbn in Hnotin.
    assert (E1 : String.eqb s "RespConstraint.FREE" = false)
      by (apply String.eqb_neq; intros ->; tauto).
    assert (E2 : String.eqb s "RespConstraint.NO_MORE_THAN_ONE" = false)
      by (apply String.eqb_neq; intros ->; tauto).
    assert (E3 : String.eqb s "RespConstraint.EXACTLY_ONE" = false)
      by (apply String.eqb_neq; intros ->; tauto).
    unfold convert_str_to_required_single, required_single_format_func.
    cbn. rewrite E1, E2, E3. split; reflexivity.
Qed.

Lemma str_split_from_cons (sep : codepoint) (s : str) :
  forall cur, exists seg segs, str_split_from sep cur s = seg :: segs.
Proof.
  induction s as [|c s IH]; intros cur; cbn.
  - now exists (rev cur), [].
  - destruct (N.eqb c sep); [now exists (rev cur), (str_split_from sep [] s)|].
    apply IH.
Qed.

Lemma str_join_split_from (sep : codepoint) (s : str) :
  forall cur, str_join sep (str_split_from sep cur s) = rev cur ++ s.
Proof.
  induction s as [|c s IH]; intros cur; cbn [str_split_from].
  - cbn. now rewrite app_nil_r.
  - destruct (N.eqb c sep) eqn:E.
    + apply N.eqb_eq in E. subst c.
      destruct (str_split_from_cons sep s []) as (seg & segs & Hs).
      specialize (IH []). rewrite Hs in *.
      change (str_join sep (rev cur :: seg :: segs))
        with (rev cur ++ sep :: str_join sep (seg :: segs)).
      now rewrite IH.
    + rewrite IH. cbn. now rewrite <- app_assoc.
Qed.

Lemma str_split_from_no_sep (sep : codepoint) (s : str) :
  forall cur,
    ~ In sep cur ->
    Forall (fun seg => ~ In sep seg) (str_split_from sep cur s).
Proof.
  induction s as [|c s IH]; intros cur Hcur; cbn [str_split_from].
  - constructor; [|constructor]. now rewrite <- in_rev.
  - destruct (N.eqb c sep) eqn:E.
    + constructor; [now rewrite <- in_rev | apply IH; tauto].
    + apply IH. apply N.eqb_neq in E. intros [H|H]; [congruence | contradiction].
Qed.

Lemma forallb_lstrip (isspace : codepoint -> bool) (s : str) :
  (lstrip isspace s = [] <-> forallb isspace s = true) /\
  forallb isspace (lstrip isspace s) = forallb isspace s.
Proof.
  induction s as [|c s [IH1 IH2]]; cbn; [tauto|].
  destruct (isspace c) eqn:E; cbn; [tauto|].
  rewrite E. cbn. split; [split; discriminate | reflexivity].
Qed.

Lemma forallb_rev_eq (A : Type) (f : A -> bool) (l : list A) :
  forallb f (rev l) = forallb f l.
Proof.
  apply eq_true_iff_eq. rewrite !forallb_forall.
  split; intros H x Hin; apply H; [now apply in_rev in Hin | now apply in_rev].
Qed.

(** [arg_str.strip()] is empty exactly when [arg_str] is white space
    throughout. *)
Lemma strip_blank (isspace : codepoint -> bool) (s : str) :
  strip isspace s = [] <-> forallb isspace s = true.
Proof.
  unfold strip.
  rewrite <- (proj2 (forallb_lstrip isspace s)).
  rewrite <- (forallb_rev_eq _ isspace (lstrip isspace s)).
  rewrite <- (proj1 (forallb_lstrip isspace (rev (lstrip isspace s)))).
  split; [|intros ->; reflexivity].
  intros H. apply (f_equal (@rev codepoint)) in H.
  now rewrite rev_involutive in H.
Qed.

(** Pieces of white space are not evaluated. *)
Lemma populate_from_nonblank (isspace : codepoint -> bool) (Interp : Type)
    (py_eval : eval_locals -> Interp -> outcome pyval * (list pyval * Interp))
    (qry_args_str : str) (segs : list str) :
  forall qry_args eval_arg i,
    populate_from isspace py_eval qry_args_str segs qry_args eval_arg i =
    populate_from isspace py_eval qry_args_str
      (filter (fun seg => negb (forallb isspace seg)) segs) qry_args eval_arg i.
Proof.
  induction segs as [|seg segs IH]; intros qry_args eval_arg i;
    cbn [populate_from filter]; [reflexivity|].
  destruct (strip isspace seg) as [|c rest] eqn:Hs.
  - apply strip_blank in Hs. rewrite Hs. cbn [negb]. apply IH.
  - assert (Hb : forallb isspace seg = false).
    { destruct (forallb isspace seg) eqn:E; [|reflexivity].
      apply strip_blank in E. congruence. }
    rewrite Hb. cbn [negb populate_from]. rewrite Hs.
    destruct (py_eval _ i) as [[value|e] [qry_args' i']]; [apply IH | reflexivity].
Qed.

(** The warning goes with the [SyntaxError], and with nothing else. *)
Lemma populate_from_warnings (isspace : codepoint -> bool) (Interp : Type)
    (py_eval : eval_locals -> Interp -> outcome pyval * (list pyval * Interp))
    (qry_args_str : str) (segs : list str) :
  forall qry_args eval_arg i,
    match populate_from isspace py_eval qry_args_str segs qry_args eval_arg i with
    | (Ok _, warnings, _) => warnings = []
    | (Raise e, warnings, _) =>
        warnings = if is_SyntaxError e then [CanNotParsePositional] else []
    end.
Proof.
  induction segs as [|seg segs IH]; intros qry_args eval_arg i;
    cbn [populate_from]; [reflexivity|].
  destruct (strip isspace seg) as [|c rest]; [apply IH|].
  destruct (py_eval _ i) as [[value|e] [qry_args' i']]; [apply IH | reflexivity].
Qed.

(** An [eval] that leaves the list alone: one value for each piece. *)
Lemma populate_from_length (isspace : codepoint -> bool) (Interp : Type)
    (py_eval : eval_locals -> Interp -> outcome pyval * (list pyval * Interp))
    (qry_args_str : str) (segs : list str) :
  (forall l j, fst (snd (py_eval l j)) = l_qry_args l) ->
  forall qry_args eval_arg i values warnings i',
    populate_from isspace py_eval qry_args_str segs qry_args eval_arg i
      = (Ok values, warnings, i') ->
    List.length values =
    (List.length qry_args
     + List.length (filter (fun seg => negb (forallb isspace seg)) segs))%nat.
Proof.
  intros Hkeeps.
  induction segs as [|seg segs IH];
    intros qry_args eval_arg i values warnings i' Hrun;
    cbn [populate_from filter] in *.
  - injection Hrun as <- _ _. cbn. lia.
  - destruct (strip isspace seg) as [|c rest] eqn:Hs.
    + apply strip_blank in Hs. rewrite Hs. cbn [negb]. exact (IH _ _ _ _ _ _ Hrun).
    + assert (Hb : forallb isspace seg = false).
      { destruct (forallb isspace seg) eqn:E; [|reflexivity].
        apply strip_blank in E. congruence. }
      rewrite Hb. cbn [negb List.length].
      pose proof (Hkeeps {| l_qry_args_str := qry_args_str;
                            l_qry_args := qry_args;
                            l_arg_str := seg;
                            l_eval_arg := eval_arg |} i) as Hk.
      destruct (py_eval _ i) as [[value|e] [qry_args' i'']]; [|discriminate].
      cbn in Hk. subst qry_args'.
      rewrite (IH _ _ _ _ _ _ Hrun), length_app. cbn. lia.
Qed.

(** An [eval] whose answer is that of the piece alone and that touches
    nothing. *)
Lemma populate_from_spec (isspace : codepoint -> bool) (Interp : Type)
    (py_eval : eval_locals -> Interp -> outcome pyval * (list pyval * Interp))
    (value_of : str -> outcome pyval) (qry_args_str : str) (segs : list str) :
  (forall l j, py_eval l j = (value_of (l_arg_str l), (l_qry_args l, j))) ->
  forall qry_args eval_arg i,
    match populate_from isspace py_eval qry_args_str segs qry_args eval_arg i with
    | (Ok values, warnings, i') =>
        exists evaluated,
          values = qry_args ++ evaluated /\
          map value_of (filter (fun seg => negb (forallb isspace seg)) segs)
          = map Ok evaluated /\
          i' = i
    | (Raise e, warnings, i') =>
        exists done arg_str rest evaluated,
          filter (fun seg => negb (forallb isspace seg)) segs
          = done ++ arg_str :: rest /\
          map value_of done = map Ok evaluated /\
          value_of arg_str = Raise e /\
          i' = i
    end.
Proof.
  intros Hpure.
  induction segs as [|seg segs IH]; intros qry_args eval_arg i;
    cbn [populate_from filter].
  - exists []. now rewrite app_nil_r.
  - destruct (strip isspace seg) as [|c rest] eqn:Hs.
    + apply strip_blank in Hs. rewrite Hs. cbn [negb]. apply IH.
    + assert (Hb : forallb isspace seg = false).
      { destruct (forallb isspace seg) eqn:E; [|reflexivity].
        apply strip_blank in E. congruence. }
      rewrite Hb, Hpure. cbn [negb l_arg_str l_qry_args].
      destruct (value_of seg) as [v|e] eqn:Hev.
      * specialize (IH (qry_args ++ [v]) (Some v) i).
        destruct (populate_from isspace py_eval qry_args_str segs
                    (qry_args ++ [v]) (Some v) i)
          as [[[values|e] warnings] i'].
        -- destruct IH as (evaluated & -> & Hmap & ->).
           exists (v :: evaluated). rewrite <- app_assoc. cbn.
           now rewrite Hev, Hmap.
        -- destruct IH as (done & arg_str & rest' & evaluated & Hf & Hmap & He & ->).
           exists (seg :: done), arg_str, rest', (v :: evaluated).
           cbn. now rewrite Hf, Hev, Hmap.
      * exists [], seg, (filter (fun seg => negb (forallb isspace seg)) segs), [].
        auto.
Qed.

(** X12.  [_populate_qry_args] cuts the text at its semicolons: the
    pieces joined with semicolons are the text again and none has a
    semicolon in it.  It evaluates, in the frame of the function, the
    pieces that are not white space throughout, each as it stands and in
    their order, and never the others; what an evaluation does to the
    list of the arguments and to the interpreter is there for the next.
    It stops at the first evaluation that raises, with that exception, and
    warns exactly when the exception is a [SyntaxError].  When the
    evaluations leave the list alone, the tuple has one value for each of
    these pieces.  When moreover the answer of an evaluation is that of
    the piece alone and nothing is touched, as with literals, the tuple
    is the values of the pieces in their order, and a failure is that of
    the first piece that has one. *)
Theorem positional_arguments_are_the_evaluated_pieces :
  forall (isspace : codepoint -> bool) (Interp : Type)
         (py_eval : eval_locals -> Interp
                    -> outcome pyval * (list pyval * Interp))
         (qry_args_str : str) (i : Interp),
    let pieces := str_split semicolon qry_args_str in
    let args := filter (fun seg => negb (forallb isspace seg)) pieces in
    let result := _populate_qry_args isspace py_eval qry_args_str i in
    str_join semicolon pieces = qry_args_str /\
    Forall (fun seg => ~ In semicolon seg) pieces /\
    result = populate_from isspace py_eval qry_args_str args [] None i /\
    match result with
    | (Ok _, warnings, _) => warnings = []
    | (Raise e, warnings, _) =>
        warnings = if is_SyntaxError e then [CanNotParsePositional] else []
    end /\
    ((forall l j, fst (snd (py_eval l j)) = l_qry_args l) ->
     forall qry_args warnings i',
       result = (Ok qry_args, warnings, i') ->
       List.length qry_args = List.length args) /\
    (forall value_of : str -> outcome pyval,
        (forall l j, py_eval l j = (value_of (l_arg_str l), (l_qry_args l, j))) ->
        match result with
        | (Ok qry_args, _, i') =>
            map value_of args = map Ok qry_args /\ i' = i
        | (Raise e, _, i') =>
            exists done arg_str rest evaluated,
              args = done ++ arg_str :: rest /\
              map value_of done = map Ok evaluated /\
              value_of arg_str = Raise e /\
              i' = i
        end).
Proof.
  intros isspace Interp py_eval qry_args_str i pieces args result.
  split; [apply (str_join_split_from semicolon qry_args_str [])|].
  split; [apply str_split_from_no_sep; tauto|].
  subst result. unfold _populate_qry_args. fold pieces.
  split; [apply populate_from_nonblank|].
  split; [apply populate_from_warnings|].
  split.
  - intros Hkeeps qry_args warnings i' Hrun.
    exact (populate_from_length isspace Interp py_eval qry_args_str pieces
             Hkeeps [] None i qry_args warnings i' Hrun).
  - intros value_of Hpure.
    pose proof (populate_from_spec isspace Interp py_eval value_of
                  qry_args_str pieces Hpure [] None i) as H.
    destruct (populate_from isspace py_eval qry_args_str pieces [] None i)
      as [[[values|e] warnings] i'].
    + destruct H as (evaluated & -> & Hmap & ->). now split.
    + exact H.
Qed.

(* ================================================================== *)
(** ** The model at work *)
(* ================================================================== *)

(** The texts of the specification: a plain selection, a deletion, and an
    identifier that happens to contain a keyword. *)
Example classify_select :
  _is_qry_immutable ascii_only_fold (pystr "SELECT Movie {title};") = true.
Proof. reflexivity. Qed.

Example classify_delete :
  _is_qry_immutable ascii_only_fold
    (pystr "DELETE Person FILTER .name=<str>$name") = false.
Proof. reflexivity. Qed.

Example classify_insertable :
  _is_qry_immutable ascii_only_fold (pystr "SELECT Insertable {x};") = false.
Proof. reflexivity. Qed.

Example match_func_name_json_single :
  match_func_name (PyRespJson YES) (PyRespConstraint NO_MORE_THAN_ONE)
  = Ok "query_single_json"%string.
Proof. reflexivity. Qed.

Example match_func_name_of_none :
  match_func_name PyNone (PyRespConstraint FREE) = Raise AssertionError.
Proof. reflexivity. Qed.

(** [tests_mqry.py]: with [ttl=999], an insertion issued twice and a
    third mutating request leave [_total_dbcalls = 3] after the window. *)
Example test_insert_then_delete :
  _total_dbcalls
    (self (snd (async_with 0 (@slept pyval nat) 9
                  (window_body ascii_only_fold counting_server
                     (repeat_query insert_person [1; 2; 3]%Z) None)
                  (fresh pyval "localhost" 5656 "edgedb" "secret" 999 0%nat))))
  = 3%Z.
Proof. reflexivity. Qed.

(** [tests_qry_by_args.py]: with [ttl=999], the same request from two
    tasks of one group: [_dbcalls] counts 1 and both tasks have the
    result. *)
Example test_small_qries_cached :
  option_map
    (fun m => (_dbcalls (self (conn m)), delivered m))
    (run ascii_only_fold counting_server
       [Arrive 1 10 select_movie_by_args; Arrive 2 10 select_movie_by_args;
        Run (key_of select_movie_by_args);
        Complete (key_of select_movie_by_args) 11]
       (idle (fresh pyval "localhost" 5656 "edgedb" "secret" 999 0%nat)))
  = Some (1%Z, [(1%nat, Ok (PyInt 0)); (2%nat, Ok (PyInt 0))]).
Proof. vm_compute. reflexivity. Qed.

(** [test_imqry.py], the connection without [ttl]: every repetition is a
    call. *)
Example test_small_qries_noncached :
  _dbcalls
    (self (snd (query_each ascii_only_fold counting_server
                  (repeat_query select_movies [1; 2]%Z)
                  (fresh pyval "localhost" 5656 "edgedb" "secret" 0 0%nat))))
  = 2%Z.
Proof. reflexivity. Qed.

(** [test_healthy.py]: the URL of the probe. *)
Example test_healthy_check_url :
  _healthy_check_url (__init__ pyval "localhost" 5656 "edgedb" "secret" 0)
  = "https://localhost:5656/server/status/alive"%string.
Proof. reflexivity. Qed.

(* ================================================================== *)
(** ** The theorems at concrete inputs *)
(* ================================================================== *)

Lemma single_flight_witness :
  exists m,
    run ascii_only_fold counting_server
      [Arrive 1 10 select_movie_by_args; Arrive 2 10 select_movie_by_args;
       Run (key_of select_movie_by_args);
       Arrive 3 11 select_movie_by_args;
       Complete (key_of select_movie_by_args) 12]
      (idle (fresh pyval "localhost" 5656 "edgedb" "secret" 999 0%nat))
    = Some m /\
    List.length (remote_log (world (conn m))) = 1%nat /\
    delivered m = [(1%nat, Ok (PyInt 0)); (2%nat, Ok (PyInt 0));
                   (3%nat, Ok (PyInt 0))].
Proof.
  destruct (single_flight ascii_only_fold _ _ counting_server
              "localhost" 5656 "edgedb" "secret" 999 0%nat []
              (key_of select_movie_by_args)
              {| arr_task := 1; arr_time := 10;
                 arr_request := select_movie_by_args |}
              [{| arr_task := 2; arr_time := 10;
                  arr_request := select_movie_by_args |}]
              [{| arr_task := 3; arr_time := 11;
                  arr_request := select_movie_by_args |}]
              12%Z)
    as (m & Hrun & Hlog & _ & Hdel & _).
  - lia.
  - reflexivity.
  - repeat constructor.
  - reflexivity.
  - exists m. split; [exact Hrun | split].
    + exact (f_equal (@List.length remote_call) Hlog).
    + exact Hdel.
Defined.

Lemma classify_mutating_iff_keyword_witness :
  forallb is_ascii (pystr "SELECT Insertable {x};") = true /\
  (_is_qry_immutable ascii_only_fold (pystr "SELECT Insertable {x};") = false <->
   exists kw, In kw spec_keywords /\
              ci_substring kw (pystr "SELECT Insertable {x};")).
Proof.
  split; [reflexivity|].
  apply (proj2 (proj2 (proj2 (classify_mutating_iff_keyword ascii_only_fold)))).
  reflexivity.
Defined.

Lemma match_func_name_total_distinct_witness :
  (forall j r, (PyInt 1, PyNone) <> (PyRespJson j, PyRespConstraint r)) /\
  match_func_name (PyInt 1) PyNone = Raise AssertionError.
Proof.
  assert (H : forall j r, (PyInt 1, PyNone) <> (PyRespJson j, PyRespConstraint r))
    by (intros j r; discriminate).
  split; [exact H|].
  exact (proj2 (proj2 (proj2 (proj2 (proj2 match_func_name_total_distinct))))
               (PyInt 1) PyNone H).
Defined.

Lemma cached_repeats_call_once_witness :
  (0 < 999)%Z /\
  Forall (fun t => (t - 10 < 999)%Z) [20; 30; 1008]%Z /\
  fst (query_each ascii_only_fold counting_server
         (repeat_query select_movies [10; 20; 30; 1008]%Z)
         (fresh pyval "localhost" 5656 "edgedb" "secret" 999 0%nat))
  = [Ok (PyInt 0); Ok (PyInt 0); Ok (PyInt 0); Ok (PyInt 0)] /\
  List.length
    (remote_log
       (world (snd (query_each ascii_only_fold counting_server
                      (repeat_query select_movies [10; 20; 30; 1008]%Z)
                      (fresh pyval "localhost" 5656 "edgedb" "secret" 999 0%nat)))))
  = 1%nat.
Proof.
  assert (Hts : Forall (fun t => (t - 10 < 999)%Z) [20; 30; 1008]%Z)
    by (repeat constructor; lia).
  split; [lia | split; [exact Hts|]].
  assert (Hlt : (0 < 999)%Z) by lia.
  destruct (proj1 (cached_repeats_call_once ascii_only_fold _ _ counting_server
                     "localhost" 5656 "edgedb" "secret" 999 0%nat []
                     select_movies (key_of select_movies) 10%Z
                     Hlt eq_refl eq_refl eq_refl)
                  (PyInt 0) [20; 30; 1008]%Z eq_refl Hts)
    as (Houts & Hlog & _).
  split; [exact Houts | exact (f_equal (@List.length remote_call) Hlog)].
Defined.

(** C4 as the specification words it does not hold: a request whose
    execution raises is not stored.  The server refuses [query_json];
    the same non-mutating request issued three times within the time to
    live invokes the client three times and is counted three times. *)
Lemma failed_execution_is_called_again :
  _is_qry_immutable ascii_only_fold (qry select_movies_json) = true /\
  fst (query_each ascii_only_fold counting_server
         (repeat_query select_movies_json [10; 20; 30]%Z)
         (fresh pyval "localhost" 5656 "edgedb" "secret" 999 0%nat))
  = [Raise (EdgeDBError "refused"); Raise (EdgeDBError "refused");
     Raise (EdgeDBError "refused")] /\
  List.length
    (remote_log
       (world (snd (query_each ascii_only_fold counting_server
                      (repeat_query select_movies_json [10; 20; 30]%Z)
                      (fresh pyval "localhost" 5656 "edgedb" "secret" 999 0%nat)))))
  = 3%nat /\
  _dbcalls
    (self (snd (query_each ascii_only_fold counting_server
                  (repeat_query select_movies_json [10; 20; 30]%Z)
                  (fresh pyval "localhost" 5656 "edgedb" "secret" 999 0%nat))))
  = 3%Z.
Proof. repeat split; reflexivity. Qed.

Lemma ttl_disabled_calls_every_time_witness :
  (0 <= 0)%Z /\
  List.length
    (remote_log
       (world (snd (query_each ascii_only_fold counting_server
                      (repeat_query select_movies [10; 20; 30]%Z)
                      (fresh pyval "localhost" 5656 "edgedb" "secret" 0 0%nat)))))
  = 3%nat.
Proof.
  split; [lia|].
  destruct (ttl_disabled_calls_every_time ascii_only_fold _ _ counting_server
              "localhost" 5656 "edgedb" "secret" 0 0%nat []
              select_movies [10; 20; 30]%Z)
    as (Hlog & _).
  - lia.
  - exact (f_equal (@List.length remote_call) Hlog).
Defined.

Lemma mutating_bypasses_cache_witness :
  _is_qry_immutable ascii_only_fold (qry insert_person) = false /\
  List.length
    (remote_log
       (world (snd (query_each ascii_only_fold counting_server
                      (repeat_query insert_person [10; 20; 30]%Z)
                      (fresh pyval "localhost" 5656 "edgedb" "secret" 999 0%nat)))))
  = 3%nat.
Proof.
  split; [reflexivity|].
  destruct (mutating_bypasses_cache ascii_only_fold _ _ counting_server
              "localhost" 5656 "edgedb" "secret" 999 0%nat []
              insert_person [10; 20; 30]%Z)
    as (Hlog & _).
  - reflexivity.
  - exact (f_equal (@List.length remote_call) Hlog).
Defined.

Lemma health_check_false_on_failure_witness :
  demo_network
    {| url := "https://localhost:5657/server/status/alive";
       follow_redirects := true; verify := false; timeout := 30 |}
  = HttpxRaises (TransportError ConnectionRefused) /\
  is_healthy demo_network (__init__ pyval "localhost" 5657 "edgedb" "secret" 0)
  = Ok false.
Proof.
  split; [reflexivity|].
  exact (proj1 (proj2 (health_check_false_on_failure pyval demo_network
                         (__init__ pyval "localhost" 5657 "edgedb" "secret" 0)))
               ConnectionRefused eq_refl).
Defined.

Lemma unhashable_request_raises_witness :
  (0 < 999)%Z /\
  _is_qry_immutable ascii_only_fold (qry select_with_list) = true /\
  hashable (PyList [PyInt 2015; PyInt 2018]) = false /\
  query ascii_only_fold counting_server 10 select_with_list
    (fresh pyval "localhost" 5656 "edgedb" "secret" 999 0%nat)
  = (Raise CacheKeyError,
     fresh pyval "localhost" 5656 "edgedb" "secret" 999 0%nat).
Proof.
  split; [lia | split; [reflexivity | split; [reflexivity|]]].
  apply (unhashable_request_raises ascii_only_fold _ _ counting_server
           "localhost" 5656 "edgedb" "secret" 999 0%nat [] 10%Z select_with_list).
  - lia.
  - reflexivity.
  - left. exists (PyList [PyInt 2015; PyInt 2018]). split; [now left | reflexivity].
Defined.

Lemma uncached_paths_coincide_witness :
  (0 <= 0)%Z /\
  query ascii_only_fold counting_server 10 insert_person
    (fresh pyval "localhost" 5656 "edgedb" "secret" 0 0%nat)
  = _imquery counting_server insert_person
      (fresh pyval "localhost" 5656 "edgedb" "secret" 0 0%nat) /\
  query ascii_only_fold counting_server 10 select_movies
    (fresh pyval "localhost" 5656 "edgedb" "secret" 0 0%nat)
  = _mquery counting_server select_movies
      (fresh pyval "localhost" 5656 "edgedb" "secret" 0 0%nat).
Proof.
  split; [lia | split].
  - destruct (uncached_paths_coincide ascii_only_fold _ _ counting_server
                "localhost" 5656 "edgedb" "secret" 0 0%nat [] 10%Z insert_person)
      as (_ & _ & H & _); [lia | exact H].
  - destruct (uncached_paths_coincide ascii_only_fold _ _ counting_server
                "localhost" 5656 "edgedb" "secret" 0 0%nat [] 10%Z select_movies)
      as (_ & H & _); [lia | exact H].
Defined.

(** C7 as the specification words it does not hold: not every exit
    settles the counters.  A window in which the client was invoked once
    and whose body raises; its task is cancelled while [__aexit__]
    sleeps.  The statement ends with CancelledError in the place of the
    exception of the body, the per-window count is still 1 and the total
    still 0. *)
Lemma cancelled_exit_settles_nothing :
  fst (async_with 0 (@cancelled pyval nat) 9
         (window_body ascii_only_fold counting_server
            [(1%Z, select_movies)] (Some (OtherError "boom")))
         (fresh pyval "localhost" 5656 "edgedb" "secret" 0 0%nat))
  = Raise CancelledError /\
  _dbcalls
    (self (snd (async_with 0 (@cancelled pyval nat) 9
                  (window_body ascii_only_fold counting_server
                     [(1%Z, select_movies)] (Some (OtherError "boom")))
                  (fresh pyval "localhost" 5656 "edgedb" "secret" 0 0%nat))))
  = 1%Z /\
  _total_dbcalls
    (self (snd (async_with 0 (@cancelled pyval nat) 9
                  (window_body ascii_only_fold counting_server
                     [(1%Z, select_movies)] (Some (OtherError "boom")))
                  (fresh pyval "localhost" 5656 "edgedb" "secret" 0 0%nat))))
  = 0%Z.
Proof. repeat split; reflexivity. Qed.

(** C8 as the specification words it does not hold: the health check
    can raise.  The [except] clause names [httpx.HTTPError]; what
    [httpx.get] raises outside that family, here [httpx.InvalidURL] for a
    host with a tab in it, leaves [is_healthy] as an exception. *)
Lemma health_check_raises_on_invalid_url :
  is_healthy url_checking_network
    (__init__ pyval host_with_tab 5656 "edgedb" "secret" 0)
  = Raise (HttpxException (NotHTTPError "InvalidURL")).
Proof. reflexivity. Qed.

(* ================================================================== *)
(** ** The application at work *)
(* ================================================================== *)

Example split_positional_arguments :
  str_split semicolon (pystr "1; 2;") = [pystr "1"; pystr " 2"; []].
Proof. reflexivity. Qed.

Example populate_two_literals :
  _populate_qry_args ascii_isspace literal_eval (pystr "1; 2;") tt
  = (Ok [PyInt 1; PyInt 2], [], tt).
Proof. reflexivity. Qed.

Example populate_stops_at_the_first_error :
  _populate_qry_args ascii_isspace literal_eval (pystr "1; x; 2") tt
  = (Raise SyntaxError, [CanNotParsePositional], tt).
Proof. reflexivity. Qed.

(** An expression that empties the list: the value of the first piece
    is gone from the tuple, that of the second is in it. *)
Example populate_with_a_clearing_piece :
  _populate_qry_args ascii_isspace clearing_eval
    (pystr "1; qry_args.clear()") tt
  = (Ok [PyNone], [], tt).
Proof. reflexivity. Qed.

Example db_info_of_the_demo_file :
  load_db_info demo_toml no_secrets
  = Ok [("host", TomlStr "localhost"); ("port", TomlInt 5656);
        ("database", TomlStr "edgedb")]%string.
Proof. reflexivity. Qed.

Lemma concurrent_calls_are_counted_witness :
  exists m,
    session_run ascii_only_fold counting_server
      [WindowEnter 0; OfLoop (Arrive 1 1 select_movies); WindowExit None 2;
       OfLoop (CompleteDirect 1); OfLoop (Arrive 2 3 insert_person)]
      (idle (fresh pyval "localhost" 5656 "edgedb" "secret" 0 0%nat))
    = Some m /\
    (_dbcalls (self (conn m)) + _total_dbcalls (self (conn m)))%Z
      = remote_calls (conn m) /\
    remote_calls (conn m) = 2%Z.
Proof.
  pose proof (concurrent_calls_are_counted ascii_only_fold _ _ counting_server
                "localhost" 5656 "edgedb" "secret" 0 0%nat
                [WindowEnter 0; OfLoop (Arrive 1 1 select_movies);
                 WindowExit None 2; OfLoop (CompleteDirect 1);
                 OfLoop (Arrive 2 3 insert_person)]) as H.
  destruct (session_run ascii_only_fold counting_server _ _) as [m|] eqn:E.
  - exists m. split; [reflexivity|]. split; [exact (proj1 (H m eq_refl))|].
    vm_compute in E. injection E as <-. reflexivity.
  - vm_compute in E. discriminate.
Defined.

Lemma routine_clean_keeps_the_excluded_and_the_fresh_witness :
  loop_dict (_routine_clean (@rev string) 400 ["tok-a"%string] 300 demo_resources)
  = [("tok-a"%string, (1%nat, 0%Z)); ("tok-c"%string, (3%nat, 390%Z))] /\
  conn_dict (_routine_clean (@rev string) 400 ["tok-a"%string] 300 demo_resources)
  = conn_dict demo_resources /\
  toasts (_routine_clean (@rev string) 400 ["tok-a"%string] 300 demo_resources) = [].
Proof.
  assert (Hl : NoDup (dict_keys (loop_dict demo_resources)))
    by (repeat constructor; cbn; intuition discriminate).
  assert (Hc : NoDup (dict_keys (conn_dict demo_resources)))
    by (repeat constructor; cbn; intuition discriminate).
  destruct (routine_clean_keeps_the_excluded_and_the_fresh
              nat nat (@rev string) 400 ["tok-a"%string] 300 demo_resources
              (fun s => Permutation_sym (Permutation_rev s)) Hl Hc)
    as (El & Ec & Et).
  split; [rewrite El; reflexivity|].
  split; [rewrite Ec; reflexivity | rewrite Et; reflexivity].
Defined.

Lemma session_keeps_its_own_resources_witness :
  dict_get "tok-c"
    (loop_dict (snd (__main__ (@rev string) 1000 "tok-c" 7%nat (Ok 70%nat)
                       (TryFreeRes 1001) 1400 demo_resources)))
  = Some (3%nat, 1000%Z) /\
  dict_get "tok-c"
    (conn_dict (snd (__main__ (@rev string) 1000 "tok-c" 7%nat (Ok 70%nat)
                       (TryFreeRes 1001) 1400 demo_resources)))
  = Some (30%nat, 1000%Z).
Proof.
  destruct (session_keeps_its_own_resources
              nat nat (@rev string) 1000 "tok-c" 7%nat (Ok 70%nat)
              (TryFreeRes 1001) 1400 demo_resources
              (snd (__main__ (@rev string) 1000 "tok-c" 7%nat (Ok 70%nat)
                      (TryFreeRes 1001) 1400 demo_resources))
              3%nat 30%nat
              (fun s => Permutation_sym (Permutation_rev s)) eq_refl)
    as (Hl & Hc & _).
  split; [exact Hl | exact Hc].
Defined.

Lemma app_health_check_agrees_with_the_connection_witness :
  is_db_healthy demo_toml no_secrets demo_network = Ok true /\
  is_healthy demo_network (__init__ pyval "localhost" 5656 "edgedb" "secret" 0)
  = Ok true.
Proof.
  pose proof (app_health_check_agrees_with_the_connection
                ascii_only_fold pyval nat counting_server
                demo_toml no_secrets demo_network
                [("host", TomlStr "localhost"); ("port", TomlInt 5656);
                 ("database", TomlStr "edgedb");
                 ("secret_key", TomlStr "secret")]%string
                "localhost" 5656 "edgedb" "secret" 0 0%nat []
                eq_refl eq_refl eq_refl) as H.
  split; [reflexivity|].
  transitivity (is_db_healthy demo_toml no_secrets demo_network);
    [symmetry; exact H | reflexivity].
Defined.

Lemma positional_arguments_are_the_evaluated_pieces_witness :
  _populate_qry_args ascii_isspace literal_eval (pystr "1; ;2") tt
  = (Ok [PyInt 1; PyInt 2], [], tt) /\
  map literal_value [pystr "1"; pystr "2"] = map Ok [PyInt 1; PyInt 2].
Proof.
  split; [reflexivity|].
  exact (proj1 (proj2 (proj2 (proj2 (proj2 (proj2
           (positional_arguments_are_the_evaluated_pieces
              ascii_isspace unit literal_eval (pystr "1; ;2") tt)))))
           literal_value (fun l j => eq_refl))).
Defined.
